(** * Image optimization: request normalizer and transformation engine

    A shallow embedding of the three JavaScript handlers of the repository:

    - [Normalizer.handler]  : src/functions/url-rewrite/index.js (CloudFront Function)
    - [EngineV1.handler]    : src/functions/image-processing/index.js (Lambda)
    - [EngineV2.handler]    : the second Lambda handler (AWS SDK v3 variant)

    JavaScript strings are modelled as [string]; objects used as maps are
    association lists where the key order is observable ([Object.keys]) and
    [gmap]s where only lookups are performed. *)

From Stdlib Require Import ZArith Ascii String Strings.Byte List Permutation.
From stdpp Require Import base option list strings gmap pretty.

Open Scope string_scope.

(** ** JavaScript string primitives *)

Module Js.

(** [String.prototype.toLowerCase] on one code unit.  Only the ASCII letters
    are mapped; the handlers compare lower-cased text against ASCII-only
    literals, none of which contains a letter ([k], or [i] followed by a
    combining dot) that is the lower-case image of a non-ASCII code point. *)
Definition toLowerCase_ascii (c : ascii) : ascii :=
  let n := nat_of_ascii c in
  if (65 <=? n)%nat && (n <=? 90)%nat then ascii_of_nat (n + 32) else c.

Fixpoint toLowerCase (s : string) : string :=
  match s with
  | EmptyString => EmptyString
  | String c s' => String (toLowerCase_ascii c) (toLowerCase s')
  end.

(** Truthiness of a string value: only the empty string is falsy. *)
Definition truthy (s : string) : bool :=
  match s with EmptyString => false | _ => true end.

(** [Array.prototype.includes] on an array of strings. *)
Definition includes (l : list string) (s : string) : bool :=
  existsb (String.eqb s) l.

(** [Array.prototype.join]. *)
Fixpoint join (sep : string) (l : list string) : string :=
  match l with
  | [] => ""
  | [x] => x
  | x :: rest => x ++ sep ++ join sep rest
  end.

(** [String.prototype.split] with a one-character separator: the result is
    never empty, [split c ""] is [[""]]. *)
Fixpoint split (sep : ascii) (s : string) : list string :=
  match s with
  | EmptyString => [""]
  | String c s' =>
      if Ascii.eqb c sep then "" :: split sep s'
      else match split sep s' with
           | [] => [String c ""]
           | piece :: rest => String c piece :: rest
           end
  end.

(** [Array.prototype.pop]: the removed last element ([None] is [undefined])
    and the array that is left. *)
Definition pop (l : list string) : option string * list string :=
  (last l, removelast l).

(** [Array.prototype.shift], of which the handlers only use the effect. *)
Definition shift (l : list string) : list string := tail l.

End Js.

(** ** Request Normalizer (src/functions/url-rewrite/index.js) *)

Module Normalizer.

(** One member of [request.querystring]. *)
Record QueryValue := {
  value : string;
  multiValue : list string
}.

(** [request.querystring] is a JavaScript object; the association list gives
    its members in [Object.keys] order.  [None] stands for a missing
    (undefined) [querystring]; an empty object is [Some []], and is truthy. *)
Record Request := {
  method : string;
  uri : string;
  querystring : option (list (string * QueryValue))
}.

Definition ALLOWED_PRESETS : list string :=
  ["thumb"; "small"; "medium"; "large"; "xlarge"; "small_wide";
   "medium_wide"; "large_wide"; "xlarge_wide"; "doordash"].

(** Member access [obj[key]] on the association list. *)
Fixpoint member (qs : list (string * QueryValue)) (key : string) : option QueryValue :=
  match qs with
  | [] => None
  | (k, v) :: rest => if String.eqb k key then Some v else member rest key
  end.

(** The callback given to [forEach]: one query parameter name, acting on
    [normalizedOperations]. *)
Definition normalizeOperation (qs : list (string * QueryValue))
    (normalizedOperations : gmap string string) (operation : string) : gmap string string :=
  if String.eqb (Js.toLowerCase operation) "preset" then
    match member qs operation with
    | Some q =>
        if Js.truthy (value q) then
          let preset := value q in
          if Js.truthy preset && Js.includes ALLOWED_PRESETS (Js.toLowerCase preset)
          then <["preset" := Js.toLowerCase preset]> normalizedOperations
          else normalizedOperations
        else normalizedOperations
    | None => normalizedOperations
    end
  else normalizedOperations.

Definition normalizedOperationsOf (qs : list (string * QueryValue)) : gmap string string :=
  fold_left (normalizeOperation qs) (map fst qs) ∅.

(** The array built "in order" from the accepted operations. *)
Definition normalizedOperationsArray (normalizedOperations : gmap string string) : list string :=
  match normalizedOperations !! "preset" with
  | Some p => if Js.truthy p then ["preset=" ++ p] else []
  | None => []
  end.

Definition handler (request : Request) : Request :=
  let originalImagePath := uri request in
  let uri' :=
    match querystring request with
    | Some qs =>
        let normalizedOperations := normalizedOperationsOf qs in
        if (0 <? size normalizedOperations)%nat then
          originalImagePath ++ "/" ++ Js.join "," (normalizedOperationsArray normalizedOperations)
        else originalImagePath ++ "/original"
    | None => originalImagePath ++ "/original"
    end in
  {| method := method request; uri := uri'; querystring := Some [] |}.

(** A parameter is accepted when the callback records it. *)
Definition accepted (kv : string * QueryValue) : bool :=
  String.eqb (Js.toLowerCase (fst kv)) "preset"
  && Js.includes ALLOWED_PRESETS (Js.toLowerCase (value (snd kv))).

End Normalizer.

(** ** Transformation Engine: what both Lambda handlers share *)

Module Engine.

Definition Buffer := list Byte.byte.

(** [Buffer.prototype.toString('base64')]. *)
Definition base64_alphabet : string :=
  "ABCDEFGHIJKLMNOPQRSTUVWXYZabcdefghijklmnopqrstuvwxyz0123456789+/".

Definition base64_char (n : N) : ascii :=
  match String.get (N.to_nat n) base64_alphabet with
  | Some c => c
  | None => "="%char
  end.

Fixpoint toString_base64 (b : Buffer) : string :=
  match b with
  | [] => ""
  | [x] =>
      let n := (Byte.to_N x * 65536)%N in
      String (base64_char (n / 262144)) (String (base64_char ((n / 4096) mod 64)) "==")
  | [x; y] =>
      let n := (Byte.to_N x * 65536 + Byte.to_N y * 256)%N in
      String (base64_char (n / 262144)) (String (base64_char ((n / 4096) mod 64))
        (String (base64_char ((n / 64) mod 64)) "="))
  | x :: y :: z :: rest =>
      let n := (Byte.to_N x * 65536 + Byte.to_N y * 256 + Byte.to_N z)%N in
      String (base64_char (n / 262144)) (String (base64_char ((n / 4096) mod 64))
        (String (base64_char ((n / 64) mod 64)) (String (base64_char (n mod 64))
          (toString_base64 rest))))
  end.

(** The radix-10 reading of [parseInt] on a string: leading digits only,
    [None] is [NaN].  The handlers pass their own two-digit literals. *)
Definition digit_of (c : ascii) : option Z :=
  let n := nat_of_ascii c in
  if (48 <=? n)%nat && (n <=? 57)%nat then Some (Z.of_nat (n - 48)) else None.

Fixpoint parseInt_digits (acc : option Z) (s : string) : option Z :=
  match s with
  | EmptyString => acc
  | String c s' =>
      match digit_of c with
      | Some d => parseInt_digits (Some (10 * default 0%Z acc + d)%Z) s'
      | None => acc
      end
  end.

Definition parseInt (s : string) : option Z :=
  match s with
  | String "-" s' => Z.opp <$> parseInt_digits None s'
  | String "+" s' => parseInt_digits None s'
  | _ => parseInt_digits None s
  end.

(** Values thrown and caught. *)
Inductive JsError :=
  | S3Error (code : string)
  | SharpError (message : string)
  | TypeError (message : string).

(** A value that is a number or a string ([sendError] receives both as
    its [statusCode]). *)
Inductive JsValue :=
  | JNum (n : Z)
  | JStr (s : string).

(** The Lambda function-URL event, as far as the handlers read it. *)
Record Http := {
  http_method : option string;
  http_path : option string
}.

Record RequestContext := { http : option Http }.

Record Event := {
  headers : option (gmap string string);
  requestContext : option RequestContext
}.

(** [process.env]. *)
Record Env := {
  originalImageBucketName : option string;
  transformedImageBucketName : option string;
  transformedImageCacheTTL : option string;
  secretKey : option string;
  logTiming : option string
}.

(** The object store (AWS S3), as an interface. *)
Record GetObjectRequest := {
  get_Bucket : option string;
  get_Key : string
}.

Record GetObjectOutput := {
  Body : Buffer;
  ContentType : option string
}.

Record PutObjectRequest := {
  put_Body : Buffer;
  put_Bucket : string;
  put_Key : string;
  put_ContentType : string;
  put_cache_control : option string
}.

Class S3Client (S : Type) := {
  getObject : S → GetObjectRequest → JsError + GetObjectOutput;
  putObject : S → PutObjectRequest → (JsError + unit) * S
}.

(** The image library (sharp).  A pipeline object records the constructor
    arguments and the calls made on it; the library interprets it when
    [metadata] or [toBuffer] is awaited.  Argument validation done by
    [resize] and [toFormat] themselves is part of [sharp_toBuffer]: both are
    called inside the same [try] block. *)
Record ResizingOptions := {
  width : option Z;
  height : option Z
}.

Record Pipeline := {
  input : Buffer;
  failOn : string;
  animated : bool;
  resize_call : option ResizingOptions;
  toFormat_call : option (string * option Z)
}.

Record Metadata := {
  md_format : string;
  md_width : Z;
  md_height : Z
}.

Class SharpLib := {
  sharp_metadata : Pipeline → JsError + Metadata;
  sharp_toBuffer : Pipeline → JsError + Buffer
}.

Definition Sharp (b : Buffer) (failOn_ : string) (animated_ : bool) : Pipeline :=
  {| input := b; failOn := failOn_; animated := animated_;
     resize_call := None; toFormat_call := None |}.

Definition resize (p : Pipeline) (o : ResizingOptions) : Pipeline :=
  {| input := input p; failOn := failOn p; animated := animated p;
     resize_call := Some o; toFormat_call := toFormat_call p |}.

Definition toFormat (p : Pipeline) (fmt : string) (q : option Z) : Pipeline :=
  {| input := input p; failOn := failOn p; animated := animated p;
     resize_call := resize_call p; toFormat_call := Some (fmt, q) |}.

(** The response object. *)
Record Headers := {
  Content_Type : string;
  Cache_Control : option string
}.

Record Response := {
  statusCode : JsValue;
  body : string;
  isBase64Encoded : option bool;
  response_headers : option Headers
}.

(** What [console.log] receives. *)
Inductive Loggable :=
  | LogStr (s : string)
  | LogErr (e : JsError)
  | LogEvent (ev : Event).

Inductive S3Call :=
  | CallGet (r : GetObjectRequest)
  | CallPut (r : PutObjectRequest).

(** The numbers of the JavaScript runtime, as far as the handlers use them
    on clock readings.  [performance.now()] returns a double; the handlers
    subtract two readings, pass the difference to [parseInt] and append the
    result to a string.  The double arithmetic and the number-to-string
    conversions are the runtime's: [parseInt_elapsed now start] is the text
    that [parseInt(now - start)] contributes to the string. *)
Class JsRuntime := {
  Number : Type;
  time_origin : Number;
  parseInt_elapsed : Number → Number → string
}.

(** The world a handler invocation runs in: the store, the console, the
    calls issued to the store so far, and the readings [performance.now()]
    is going to return (once they are used up the clock reads
    [time_origin]). *)
Record World {R : JsRuntime} (S : Type) := mkWorld {
  s3 : S;
  console : list (list Loggable);
  s3_calls : list S3Call;
  perf : list Number
}.
Arguments mkWorld {R S}.
Arguments s3 {R S}.
Arguments console {R S}.
Arguments s3_calls {R S}.
Arguments perf {R S}.

(** How a piece of code completes. *)
Inductive Completion (A : Type) :=
  | Normal (a : A)
  | Throw (e : JsError).
Arguments Normal {A}.
Arguments Throw {A}.

Definition M {R : JsRuntime} (S A : Type) : Type := World S → Completion A * World S.

Section Monad.
Context {R : JsRuntime} {S : Type}.

Definition ret {A} (a : A) : M S A := λ w, (Normal a, w).

Definition bind {A B} (m : M S A) (k : A → M S B) : M S B :=
  λ w, match m w with
       | (Normal a, w') => k a w'
       | (Throw e, w') => (Throw e, w')
       end.

Definition throw {A} (e : JsError) : M S A := λ w, (Throw e, w).

(** [try { m } catch (error) { ... }], with the caught value handed on. *)
Definition try {A} (m : M S A) : M S (JsError + A) :=
  λ w, match m w with
       | (Normal a, w') => (Normal (inr a), w')
       | (Throw e, w') => (Normal (inl e), w')
       end.

Definition lift {A} (r : JsError + A) : M S A :=
  match r with inl e => throw e | inr a => ret a end.

Definition console_log (args : list Loggable) : M S unit :=
  λ w, (Normal tt, mkWorld (s3 w) (console w ++ [args]) (s3_calls w) (perf w)).

Definition performance_now : M S Number :=
  λ w, (Normal (hd time_origin (perf w)),
        mkWorld (s3 w) (console w) (s3_calls w) (tail (perf w))).

(** [S3Instance.getObject(params).promise()] on the client of
    [@aws-sdk/client-s3] (SDK v3).  There [getObject] issues the request
    and returns a Promise; a Promise has no member [promise], so calling it
    throws a [TypeError].  The outcome of the request is never awaited. *)
Definition S3v3_getObject_promise (r : GetObjectRequest) : M S GetObjectOutput :=
  λ w, (Throw (TypeError "S3Instance.getObject(...).promise is not a function"),
        mkWorld (s3 w) (console w) (s3_calls w ++ [CallGet r]) (perf w)).

Context `{!S3Client S}.

(** [S3.getObject(params).promise()] and [S3.putObject(params).promise()]
    on the [aws-sdk] (SDK v2) client, awaited. *)
Definition S3_getObject (r : GetObjectRequest) : M S GetObjectOutput :=
  λ w, let w' := mkWorld (s3 w) (console w) (s3_calls w ++ [CallGet r]) (perf w) in
       match getObject (s3 w) r with
       | inl e => (Throw e, w')
       | inr o => (Normal o, w')
       end.

Definition S3_putObject (r : PutObjectRequest) : M S unit :=
  λ w, let '(res, s') := putObject (s3 w) r in
       let w' := mkWorld s' (console w) (s3_calls w ++ [CallPut r]) (perf w) in
       match res with
       | inl e => (Throw e, w')
       | inr u => (Normal u, w')
       end.

(** [await S3Instance.putObject(params)] on the SDK v3 client: the call
    returns the Promise that is awaited. *)
Definition S3v3_putObject (r : PutObjectRequest) : M S unit :=
  λ w, let '(res, s') := putObject (s3 w) r in
       let w' := mkWorld s' (console w) (s3_calls w ++ [CallPut r]) (perf w) in
       match res with
       | inl e => (Throw e, w')
       | inr u => (Normal u, w')
       end.
End Monad.

#[global] Instance M_ret {R : JsRuntime} {S} : MRet (M S) := λ A a, ret a.
#[global] Instance M_bind {R : JsRuntime} {S} : MBind (M S) := λ A B k m, bind m k.

(** Truthiness of a string-or-undefined value. *)
Definition truthy (v : option string) : bool :=
  match v with Some s => Js.truthy s | None => false end.

(** [Object.fromEntries] on arrays of strings: element 0 is the key, element
    1 the value ([None] when the entry has one element only: undefined);
    a later entry overwrites an earlier one with the same key. *)
Definition entry_key (e : list string) : string := default "undefined" (e !! 0%nat).

Definition fromEntries (entries : list (list string)) : gmap string (option string) :=
  fold_left (λ o e, <[entry_key e := e !! 1%nat]> o) entries ∅.

(** Property read [o[key]]: a missing member and a member holding
    undefined are both undefined. *)
Definition prop (o : gmap string (option string)) (key : string) : option string :=
  mjoin (o !! key).

(** A [switch] over strings whose clause bodies all end in [break]:
    each clause is the run of labels that share one body. *)
Inductive Label :=
  | Case (v : option string)
  | Default.

Record PresetEntry := {
  p_width : Z;
  p_height : Z;
  p_format : string;
  p_quality : string
}.

Record Clause := {
  labels : list Label;
  entry : PresetEntry
}.

Definition label_matches (v : string) (l : Label) : bool :=
  match l with
  | Case (Some s) => String.eqb s v
  | _ => false
  end.

Definition is_default (l : Label) : bool :=
  match l with Default => true | _ => false end.

Definition switch (clauses : list Clause) (v : string) : option Clause :=
  match find (λ c, existsb (label_matches v) (labels c)) clauses with
  | Some c => Some c
  | None => find (λ c, existsb is_default (labels c)) clauses
  end.

(** The mutable locals of the transform block. *)
Record Settings := {
  resizingOptions : ResizingOptions;
  format : string;
  quality : string
}.

Definition initial_settings : Settings :=
  {| resizingOptions := {| width := None; height := None |};
     format := "jpeg"; quality := "80" |}.

Definition apply_entry (e : PresetEntry) : Settings :=
  {| resizingOptions := {| width := Some (p_width e); height := Some (p_height e) |};
     format := p_format e; quality := p_quality e |}.

(** The second [switch]: content type (and the unused [isLossy]) by format. *)
Definition contentType_of_format (format : string) : string * bool :=
  if String.eqb format "jpeg" then ("image/jpeg", true)
  else if String.eqb format "jpg" then ("image/jpg", true)
  else if String.eqb format "gif" then ("image/gif", false)
  else if String.eqb format "webp" then ("image/webp", true)
  else if String.eqb format "png" then ("image/png", false)
  else if String.eqb format "avif" then ("image/avif", true)
  else ("image/jpeg", true).

End Engine.

(** ** Transformation Engine, src/functions/image-processing/index.js *)

Module EngineV1.
Import Engine.

Definition ALLOWED_PRESETS : gmap string string :=
  list_to_map
    [("icon", "icon"); ("thumb", "thumb"); ("small", "small"); ("medium", "medium");
     ("large", "large"); ("xlarge", "xlarge"); ("icon_wide", "icon_wide");
     ("thumb_wide", "thumb_wide"); ("small_wide", "small_wide");
     ("medium_wide", "medium_wide"); ("large_wide", "large_wide");
     ("xlarge_wide", "xlarge_wide"); ("doordash", "doordash")].

Definition preset (w h : Z) (f q : string) : PresetEntry :=
  {| p_width := w; p_height := h; p_format := f; p_quality := q |}.

(** The clauses of [switch (operationsJSON['preset'])], in source order. *)
Definition preset_clauses : list Clause :=
  [ {| labels := [Case (ALLOWED_PRESETS !! "icon")]; entry := preset 32 32 "jpeg" "10" |};
    {| labels := [Case (ALLOWED_PRESETS !! "thumb")]; entry := preset 50 50 "jpeg" "20" |};
    {| labels := [Case (ALLOWED_PRESETS !! "large")]; entry := preset 1024 1024 "jpeg" "80" |};
    {| labels := [Case (ALLOWED_PRESETS !! "medium")]; entry := preset 512 512 "jpeg" "70" |};
    {| labels := [Case (ALLOWED_PRESETS !! "small")]; entry := preset 256 256 "jpeg" "50" |};
    {| labels := [Case (ALLOWED_PRESETS !! "xlarge")]; entry := preset 2048 2048 "jpeg" "90" |};
    {| labels := [Case (ALLOWED_PRESETS !! "icon_wide")]; entry := preset 32 18 "jpeg" "10" |};
    {| labels := [Case (ALLOWED_PRESETS !! "thumb_wide")]; entry := preset 50 28 "jpeg" "20" |};
    {| labels := [Case (ALLOWED_PRESETS !! "large_wide")]; entry := preset 1024 576 "jpeg" "80" |};
    {| labels := [Case (ALLOWED_PRESETS !! "medium_wide")]; entry := preset 512 288 "jpeg" "70" |};
    {| labels := [Case (ALLOWED_PRESETS !! "small_wide")]; entry := preset 256 144 "jpeg" "50" |};
    {| labels := [Case (ALLOWED_PRESETS !! "doordash")]; entry := preset 1400 788 "jpeg" "70" |};
    {| labels := [Case (ALLOWED_PRESETS !! "xlarge_wide"); Default];
       entry := preset 2048 1152 "jpeg" "80" |} ].

(** [format], [quality] and [resizingOptions] after the preset [switch]. *)
Definition resolve_settings (operationsJSON : gmap string (option string)) : Settings :=
  match prop operationsJSON "preset" with
  | Some v =>
      if Js.truthy v then
        match switch preset_clauses v with
        | Some c => apply_entry (entry c)
        | None => initial_settings
        end
      else initial_settings
  | None => initial_settings
  end.

Section Handler.
Context {S : Type} `{!S3Client S} `{!SharpLib} {R : JsRuntime}.
Variable env : Env.

Definition S3_ORIGINAL_IMAGE_BUCKET := originalImageBucketName env.
Definition S3_TRANSFORMED_IMAGE_BUCKET := transformedImageBucketName env.
Definition TRANSFORMED_IMAGE_CACHE_TTL := transformedImageCacheTTL env.
Definition LOG_TIMING := logTiming env.

Definition sendError (statusCode_ : JsValue) (body_ : string) (error : Loggable)
    : M S Response :=
  _ ← console_log [LogStr "APPLICATION ERROR"; LogStr body_];
  _ ← console_log [error];
  mret {| statusCode := JNum 200; body := body_;
          isBase64Encoded := None; response_headers := None |}.

(** [event.requestContext.http.path]: reading through a missing member
    throws, and so does [split] on a missing path. *)
Definition event_path (event : Event) : M S string :=
  match requestContext event with
  | None => throw (TypeError "Cannot read properties of undefined (reading 'http')")
  | Some rc =>
      match http rc with
      | None => throw (TypeError "Cannot read properties of undefined (reading 'path')")
      | Some h =>
          match http_path h with
          | None => throw (TypeError "Cannot read properties of undefined (reading 'split')")
          | Some p => mret p
          end
      end
  end.

(** The body of the second [try] block; [resizingOptions] is an object and
    so always truthy: [resize] is always called. *)
Definition transform (transformedImage : Pipeline)
    (operationsJSON : gmap string (option string)) : M S (Buffer * string) :=
  let st := resolve_settings operationsJSON in
  let transformedImage := resize transformedImage (resizingOptions st) in
  let '(contentType, isLossy) := contentType_of_format (format st) in
  let transformedImage := toFormat transformedImage (format st) (parseInt (quality st)) in
  transformedImage ← lift (sharp_toBuffer transformedImage);
  mret (transformedImage, contentType).

(** The upload block. *)
Definition upload (transformedImage : Buffer) (originalImagePath operationsPrefix : string)
    (contentType : string) : M S unit :=
  match S3_TRANSFORMED_IMAGE_BUCKET with
  | Some bucket =>
      if Js.truthy bucket then
        r ← try (S3_putObject
                   {| put_Body := transformedImage;
                      put_Bucket := bucket;
                      put_Key := originalImagePath ++ "/" ++ operationsPrefix;
                      put_ContentType := contentType;
                      put_cache_control := TRANSFORMED_IMAGE_CACHE_TTL |});
        match r with
        | inl error =>
            _ ← sendError (JStr "APPLICATION ERROR")
                  "Could not upload transformed image to S3" (LogErr error);
            mret tt
        | inr _ => mret tt
        end
      else mret tt
  | None => mret tt
  end.

Definition handler (event : Event) : M S Response :=
  path ← event_path event;
  let imagePathArray := Js.split "/" path in
  let '(popped, imagePathArray) := Js.pop imagePathArray in
  match popped with
  | None => throw (TypeError "Cannot read properties of undefined (reading 'split')")
  | Some operationsPrefix =>
      let imagePathArray := Js.shift imagePathArray in
      let originalImagePath := Js.join "/" imagePathArray in
      let timingLog := "perf " in
      startTime ← performance_now;
      r ← try (S3_getObject {| get_Bucket := S3_ORIGINAL_IMAGE_BUCKET;
                                get_Key := originalImagePath |});
      match r with
      | inl error => sendError (JNum 500) "error downloading original image" (LogErr error)
      | inr originalImage =>
          let contentType := ContentType originalImage in
          let transformedImage := Sharp (Body originalImage) "none" true in
          imageMetadata ← lift (sharp_metadata transformedImage);
          let operationsJSON :=
            fromEntries (map (Js.split "=") (Js.split "," operationsPrefix)) in
          now ← performance_now;
          let timingLog := timingLog ++ parseInt_elapsed now startTime ++ " " in
          startTime ← performance_now;
          r ← try (transform transformedImage operationsJSON);
          match r with
          | inl error => sendError (JNum 500) "error transforming image" (LogErr error)
          | inr (transformedImage, contentType) =>
              now ← performance_now;
              let timingLog := timingLog ++ parseInt_elapsed now startTime ++ " " in
              startTime ← performance_now;
              _ ← upload transformedImage originalImagePath operationsPrefix contentType;
              now ← performance_now;
              let timingLog := timingLog ++ parseInt_elapsed now startTime ++ " " in
              _ ← (if bool_decide (LOG_TIMING = Some "true")
                   then console_log [LogStr timingLog] else mret tt);
              mret {| statusCode := JNum 200;
                      body := toString_base64 transformedImage;
                      isBase64Encoded := Some true;
                      response_headers :=
                        Some {| Content_Type := contentType;
                                Cache_Control := TRANSFORMED_IMAGE_CACHE_TTL |} |}
          end
      end
  end.
End Handler.

End EngineV1.

(** ** Transformation Engine, second handler (AWS SDK v3 client)

    This handler builds its client from [@aws-sdk/client-s3].  It still
    calls [.promise()] on the result of [getObject], which that client does
    not have, while [putObject] is awaited directly. *)

Module EngineV2.
Import Engine.

Definition ALLOWED_PRESETS : gmap string string :=
  list_to_map
    [("thumb", "thumb"); ("small", "small"); ("medium", "medium"); ("large", "large");
     ("xlarge", "xlarge"); ("small_wide", "small_wide"); ("medium_wide", "medium_wide");
     ("large_wide", "large_wide"); ("xlarge_wide", "xlarge_wide");
     ("doordash", "doordash")].

Definition preset (w h : Z) (f q : string) : PresetEntry :=
  {| p_width := w; p_height := h; p_format := f; p_quality := q |}.

Definition preset_clauses : list Clause :=
  [ {| labels := [Case (ALLOWED_PRESETS !! "thumb")]; entry := preset 50 50 "jpeg" "20" |};
    {| labels := [Case (ALLOWED_PRESETS !! "large")]; entry := preset 1024 1024 "jpeg" "80" |};
    {| labels := [Case (ALLOWED_PRESETS !! "medium")]; entry := preset 512 512 "jpeg" "70" |};
    {| labels := [Case (ALLOWED_PRESETS !! "small")]; entry := preset 256 256 "jpeg" "50" |};
    {| labels := [Case (ALLOWED_PRESETS !! "xlarge")]; entry := preset 2048 2048 "jpeg" "90" |};
    {| labels := [Case (ALLOWED_PRESETS !! "large_wide")]; entry := preset 1024 576 "jpeg" "80" |};
    {| labels := [Case (ALLOWED_PRESETS !! "medium_wide")]; entry := preset 512 288 "jpeg" "70" |};
    {| labels := [Case (ALLOWED_PRESETS !! "small_wide")]; entry := preset 256 144 "jpeg" "50" |};
    {| labels := [Case (ALLOWED_PRESETS !! "doordash")]; entry := preset 1400 788 "jpeg" "70" |};
    {| labels := [Case (ALLOWED_PRESETS !! "xlarge_wide"); Default];
       entry := preset 2048 1152 "jpeg" "80" |} ].

Definition resolve_settings (operationsJSON : gmap string (option string)) : Settings :=
  match prop operationsJSON "preset" with
  | Some v =>
      if Js.truthy v then
        match switch preset_clauses v with
        | Some c => apply_entry (entry c)
        | None => initial_settings
        end
      else initial_settings
  | None => initial_settings
  end.

Section Handler.
Context {S : Type} `{!S3Client S} `{!SharpLib} {R : JsRuntime}.
Variable env : Env.

Definition S3_ORIGINAL_IMAGE_BUCKET := originalImageBucketName env.
Definition S3_TRANSFORMED_IMAGE_BUCKET := transformedImageBucketName env.
Definition TRANSFORMED_IMAGE_CACHE_TTL := transformedImageCacheTTL env.
Definition SECRET_KEY := secretKey env.

Definition sendError (statusCode_ : JsValue) (body_ : string) (error : Loggable)
    : M S Response :=
  _ ← console_log [LogStr "APPLICATION ERROR"; LogStr body_];
  _ ← console_log [error];
  mret {| statusCode := statusCode_; body := body_;
          isBase64Encoded := None; response_headers := None |}.

(** [event.headers['x-origin-secret-header']]. *)
Definition secret_header (event : Event) : M S (option string) :=
  match headers event with
  | None =>
      throw (TypeError
        "Cannot read properties of undefined (reading 'x-origin-secret-header')")
  | Some hs => mret (hs !! "x-origin-secret-header")
  end.

(** The condition of the second guard, negated: a GET request. *)
Definition is_GET (event : Event) : bool :=
  match requestContext event with
  | None => false
  | Some rc =>
      match http rc with
      | None => false
      | Some h => bool_decide (http_method h = Some "GET")
      end
  end.

Definition event_path (event : Event) : M S string :=
  match requestContext event with
  | None => throw (TypeError "Cannot read properties of undefined (reading 'http')")
  | Some rc =>
      match http rc with
      | None => throw (TypeError "Cannot read properties of undefined (reading 'path')")
      | Some h =>
          match http_path h with
          | None => throw (TypeError "Cannot read properties of undefined (reading 'split')")
          | Some p => mret p
          end
      end
  end.

Definition transform (transformedImage : Pipeline)
    (operationsJSON : gmap string (option string)) : M S (Buffer * string) :=
  let st := resolve_settings operationsJSON in
  let transformedImage := resize transformedImage (resizingOptions st) in
  let '(contentType, isLossy) := contentType_of_format (format st) in
  let transformedImage := toFormat transformedImage (format st) (parseInt (quality st)) in
  transformedImage ← lift (sharp_toBuffer transformedImage);
  mret (transformedImage, contentType).

Definition upload (transformedImage : Buffer) (originalImagePath operationsPrefix : string)
    (contentType : string) : M S unit :=
  match S3_TRANSFORMED_IMAGE_BUCKET with
  | Some bucket =>
      if Js.truthy bucket then
        r ← try (S3v3_putObject
                   {| put_Body := transformedImage;
                      put_Bucket := bucket;
                      put_Key := originalImagePath ++ "/" ++ operationsPrefix;
                      put_ContentType := contentType;
                      put_cache_control := TRANSFORMED_IMAGE_CACHE_TTL |});
        match r with
        | inl error =>
            _ ← sendError (JStr "APPLICATION ERROR")
                  "Could not upload transformed image to S3" (LogErr error);
            mret tt
        | inr _ => mret tt
        end
      else mret tt
  | None => mret tt
  end.

Definition handler (event : Event) : M S Response :=
  secret ← secret_header event;
  if negb (truthy secret) || negb (bool_decide (secret = SECRET_KEY)) then
    sendError (JNum 403) "Request unauthorized" (LogEvent event)
  else if negb (is_GET event) then
    sendError (JNum 400) "Only GET method is supported" (LogEvent event)
  else
    path ← event_path event;
    let imagePathArray := Js.split "/" path in
    let '(popped, imagePathArray) := Js.pop imagePathArray in
    match popped with
    | None => throw (TypeError "Cannot read properties of undefined (reading 'split')")
    | Some operationsPrefix =>
        let imagePathArray := Js.shift imagePathArray in
        let originalImagePath := Js.join "/" imagePathArray in
        r ← try (S3v3_getObject_promise
                   {| get_Bucket := S3_ORIGINAL_IMAGE_BUCKET;
                      get_Key := originalImagePath |});
        match r with
        | inl error =>
            sendError (JNum 500) "error downloading original image" (LogErr error)
        | inr originalImage =>
            let contentType := ContentType originalImage in
            let transformedImage := Sharp (Body originalImage) "none" true in
            imageMetadata ← lift (sharp_metadata transformedImage);
            let operationsJSON :=
              fromEntries (map (Js.split "=") (Js.split "," operationsPrefix)) in
            r ← try (transform transformedImage operationsJSON);
            match r with
            | inl error => sendError (JNum 500) "error transforming image" (LogErr error)
            | inr (transformedImage, contentType) =>
                _ ← upload transformedImage originalImagePath operationsPrefix contentType;
                mret {| statusCode := JNum 200;
                        body := toString_base64 transformedImage;
                        isBase64Encoded := Some true;
                        response_headers :=
                          Some {| Content_Type := contentType;
                                  Cache_Control := TRANSFORMED_IMAGE_CACHE_TTL |} |}
            end
        end
    end.
End Handler.

End EngineV2.

(** ** Notions used to state the properties *)

Module Props.
Import Normalizer.

(** The lower-cased value of the last accepted query parameter, in key
    order, if any parameter is accepted. *)
Fixpoint last_accepted (qs : list (string * QueryValue)) : option string :=
  match qs with
  | [] => None
  | kv :: rest =>
      match last_accepted rest with
      | Some p => Some p
      | None => if accepted kv then Some (Js.toLowerCase (value (snd kv))) else None
      end
  end.

(** Two query strings that differ in the casing of names and values only. *)
Definition same_up_to_case (qs qs' : list (string * QueryValue)) : Prop :=
  Forall2 (λ a b, Js.toLowerCase (fst a) = Js.toLowerCase (fst b)
                  ∧ Js.toLowerCase (value (snd a)) = Js.toLowerCase (value (snd b)))
          qs qs'.

(** Every accepted parameter of [qs] carries the value [p] once lower-cased. *)
Definition accepted_agree (qs : list (string * QueryValue)) (p : string) : Prop :=
  ∀ kv, kv ∈ qs → accepted kv = true → Js.toLowerCase (value (snd kv)) = p.

Definition request (path : string) (qs : list (string * QueryValue)) : Request :=
  {| method := "GET"; uri := path; querystring := Some qs |}.

Definition param (name v : string) : string * QueryValue :=
  (name, {| value := v; multiValue := [] |}).

Import Engine.

(** [event.requestContext.http.path], when all three members exist. *)
Definition path_of (event : Event) : option string :=
  rc ← requestContext event; h ← http rc; http_path h.

(** The last path segment (the popped [operationsPrefix]). *)
Definition operationsPrefix_of (path : string) : option string :=
  fst (Js.pop (Js.split "/" path)).

(** The key of the original image: the path without its first (empty)
    and last segments. *)
Definition originalImagePath_of (path : string) : string :=
  Js.join "/" (Js.shift (snd (Js.pop (Js.split "/" path)))).

(** [operationsJSON] for a given last segment. *)
Definition operationsJSON_of (operationsPrefix : string) : gmap string (option string) :=
  fromEntries (map (Js.split "=") (Js.split "," operationsPrefix)).

(** What the caller observes of a completed invocation, status code apart:
    the body and the headers, or the uncaught exception. *)
Definition payload (c : Completion Response)
    : JsError + (string * option bool * option Headers) :=
  match c with
  | Normal r => inr (body r, isBase64Encoded r, response_headers r)
  | Throw e => inl e
  end.

(** The request passes the secret-header check of the second handler. *)
Definition authorized (env : Env) (event : Event) : Prop :=
  ∃ hs secret, headers event = Some hs
    ∧ hs !! "x-origin-secret-header" = Some secret
    ∧ secret ≠ "" ∧ secretKey env = Some secret.

(** A clause that belongs to one [case] label alone. *)
Definition dedicated (c : Clause) (name : string) : Prop :=
  labels c = [Case (Some name)].

(** The claim "[name] resolves to its own dedicated entry and never falls
    through to the default branch", for a list of clauses. *)
Definition resolves_to_dedicated (clauses : list Clause) (name : string) : Prop :=
  ∃ c, switch clauses name = Some c ∧ dedicated c name.

(** Width, height, format and quality are all concrete, usable values. *)
Definition concrete (e : PresetEntry) : Prop :=
  (0 < p_width e)%Z ∧ (0 < p_height e)%Z
  ∧ p_format e ∈ ["jpeg"; "png"; "gif"; "webp"; "avif"]
  ∧ ∃ q, parseInt (p_quality e) = Some q ∧ (0 <= q <= 100)%Z.

(** The pipeline handed to the image library for given settings. *)
Definition pipeline_for (st : Settings) (original : GetObjectOutput) : Pipeline :=
  toFormat (resize (Sharp (Body original) "none" true) (resizingOptions st))
    (format st) (parseInt (quality st)).

(** The request for the original image. *)
Definition source_request (env : Env) (path : string) : GetObjectRequest :=
  {| get_Bucket := originalImageBucketName env; get_Key := originalImagePath_of path |}.

(** The cache write for transformed bytes. *)
Definition cache_request (env : Env) (bucket path operationsPrefix : string)
    (st : Settings) (bytes : Buffer) : PutObjectRequest :=
  {| put_Body := bytes;
     put_Bucket := bucket;
     put_Key := originalImagePath_of path ++ "/" ++ operationsPrefix;
     put_ContentType := fst (contentType_of_format (format st));
     put_cache_control := transformedImageCacheTTL env |}.

(** The response that carries transformed bytes. *)
Definition image_response (env : Env) (st : Settings) (bytes : Buffer) : Response :=
  {| statusCode := JNum 200;
     body := toString_base64 bytes;
     isBase64Encoded := Some true;
     response_headers :=
       Some {| Content_Type := fst (contentType_of_format (format st));
               Cache_Control := transformedImageCacheTTL env |} |}.

(** The two console lines written by [sendError]. *)
Definition error_lines (msg : string) (error : Loggable) : list (list Loggable) :=
  [[LogStr "APPLICATION ERROR"; LogStr msg]; [error]].

(** The fixed format table of the specification. *)
Definition spec_content_type (format : string) : string :=
  if bool_decide (format ∈ ["jpeg"; "jpg"]) then "image/jpeg"
  else if bool_decide (format = "gif") then "image/gif"
  else if bool_decide (format = "webp") then "image/webp"
  else if bool_decide (format = "png") then "image/png"
  else if bool_decide (format = "avif") then "image/avif"
  else "image/jpeg".

End Props.

(** ** A small in-memory store and image library, and sample inputs *)

Module Samples.
Import Engine Props.

Record MemStore := {
  objects : gmap (string * string) GetObjectOutput;
  writable : bool
}.

Definition mem_getObject (st : MemStore) (r : GetObjectRequest)
    : JsError + GetObjectOutput :=
  match get_Bucket r with
  | None => inl (S3Error "MissingRequiredParameter")
  | Some b =>
      match objects st !! (b, get_Key r) with
      | Some o => inr o
      | None => inl (S3Error "NoSuchKey")
      end
  end.

Definition mem_putObject (st : MemStore) (r : PutObjectRequest)
    : (JsError + unit) * MemStore :=
  if writable st then
    (inr tt,
     {| objects := <[(put_Bucket r, put_Key r) :=
                      {| Body := put_Body r; ContentType := Some (put_ContentType r) |}]>
                   (objects st);
        writable := true |})
  else (inl (S3Error "AccessDenied"), st).

Definition mem_s3 : S3Client MemStore :=
  {| getObject := mem_getObject; putObject := mem_putObject |}.

(** A codec that refuses an empty input and otherwise returns the input
    bytes followed by one byte per resize dimension that was asked for. *)
Definition demo_dimension (d : option Z) : Buffer :=
  match d with
  | Some _ => ["x"%byte]
  | None => []
  end.

Definition demo_metadata (p : Pipeline) : JsError + Metadata :=
  match input p with
  | [] => inl (SharpError "Input Buffer is empty")
  | _ => inr {| md_format := "jpeg"; md_width := 3000; md_height := 2000 |}
  end.

Definition demo_toBuffer (p : Pipeline) : JsError + Buffer :=
  match input p, resize_call p, toFormat_call p with
  | [], _, _ => inl (SharpError "Input Buffer is empty")
  | b, Some o, Some (_, Some _) =>
      inr (b ++ demo_dimension (width o) ++ demo_dimension (height o))%list
  | _, _, _ => inl (SharpError "Invalid pipeline")
  end.

Definition demo_sharp : SharpLib :=
  {| sharp_metadata := demo_metadata; sharp_toBuffer := demo_toBuffer |}.

(** A runtime whose clock reads whole milliseconds, so that
    [parseInt(now - start)] is the difference itself. *)
Definition demo_runtime : JsRuntime :=
  {| Number := Z; time_origin := 0%Z;
     parseInt_elapsed := λ now start, pretty (now - start)%Z |}.

Definition env : Env :=
  {| originalImageBucketName := Some "originals";
     transformedImageBucketName := Some "transformed";
     transformedImageCacheTTL := Some "max-age=31622400";
     secretKey := Some "0123456789abcdef";
     logTiming := Some "false" |}.

Definition rio : GetObjectOutput :=
  {| Body := ["R"; "I"; "O"]%byte; ContentType := Some "image/jpeg" |}.

Definition store (writable_ : bool) : MemStore :=
  {| objects := {[ ("originals", "images/rio/1.jpeg") := rio ]};
     writable := writable_ |}.

Definition world (writable_ : bool) : @World demo_runtime MemStore :=
  @mkWorld demo_runtime _ (store writable_) [] [] [].

Definition get_event (path : string) : Event :=
  {| headers := Some {[ "x-origin-secret-header" := "0123456789abcdef" ]};
     requestContext :=
       Some {| http := Some {| http_method := Some "GET"; http_path := Some path |} |} |}.

Definition rio_path : string := "/images/rio/1.jpeg".

Definition two_presets : list (string * Normalizer.QueryValue) :=
  [param "preset" "medium"; param "PRESET" "large"].

Definition two_presets_swapped : list (string * Normalizer.QueryValue) :=
  [param "PRESET" "large"; param "preset" "medium"].

Definition mixed_case_preset : list (string * Normalizer.QueryValue) :=
  [param "width" "100"; param "PreSet" "MEDIUM"].

Definition unknown_preset : list (string * Normalizer.QueryValue) :=
  [param "width" "100"; param "preset" "huge"].

(** An existing image with a preset, and the scenario of a missing one. *)
Definition medium_event : Event := get_event "/images/rio/1.jpeg/preset=medium".
Definition missing_event : Event := get_event "/images/rio/2.jpeg/preset=doordash".

Definition run_v1 (event : Event) (writable_ : bool)
    : Completion Response * @World demo_runtime MemStore :=
  @EngineV1.handler _ mem_s3 demo_sharp demo_runtime env event (world writable_).

Definition run_v2 (event : Event) (writable_ : bool)
    : Completion Response * @World demo_runtime MemStore :=
  @EngineV2.handler _ mem_s3 demo_sharp demo_runtime env event (world writable_).

Definition error_response (code : Z) (msg : string) : Response :=
  {| statusCode := JNum code; body := msg;
     isBase64Encoded := None; response_headers := None |}.

End Samples.

(** ** Notions used for the further properties *)

Module Coverage.
Import Engine Props.

(** The string [s] does not contain the character [sep]. *)
Fixpoint no_char (sep : ascii) (s : string) : bool :=
  match s with
  | EmptyString => true
  | String c s' => negb (Ascii.eqb c sep) && no_char sep s'
  end.

(** The descriptors the Normalizer can append. *)
Definition is_descriptor (d : string) : Prop :=
  d = "original" ∨ ∃ p, p ∈ Normalizer.ALLOWED_PRESETS ∧ d = "preset=" ++ p.

(** What [normalizedOperations] can hold: nothing, or one allow-listed
    preset. *)
Definition operations_ok (m : gmap string string) : Prop :=
  m = ∅ ∨ ∃ p, Js.includes Normalizer.ALLOWED_PRESETS p = true ∧ m = {[ "preset" := p ]}.

(** The names that label a clause of the first handler's preset switch. *)
Definition v1_labelled : list string :=
  ["icon"; "thumb"; "large"; "medium"; "small"; "xlarge"; "icon_wide"; "thumb_wide";
   "large_wide"; "medium_wide"; "small_wide"; "doordash"; "xlarge_wide"].

(** The settings of the [default] branch. *)
Definition fallback_settings : Settings :=
  {| resizingOptions := {| width := Some 2048%Z; height := Some 1152%Z |};
     format := "jpeg"; quality := "80" |}.

(** Bounds that hold for whatever the preset switch resolves. *)
Definition settings_within_bounds (st : Settings) : Prop :=
  format st = "jpeg"
  ∧ (∃ q, parseInt (quality st) = Some q ∧ (10 <= q <= 90)%Z)
  ∧ (resizingOptions st = {| width := None; height := None |}
     ∨ ∃ w h, resizingOptions st = {| width := Some w; height := Some h |}
              ∧ (0 < h <= w)%Z ∧ (w <= 2048)%Z).

(** The status code of a returned response, if it is a number. *)
Definition status_of (r : Response) : option Z :=
  match statusCode r with
  | JNum n => Some n
  | JStr _ => None
  end.

(** The console line of the timing log, from the six clock readings and
    the runtime's [parseInt] of their differences. *)
Definition timing_line {R : JsRuntime} (t0 t1 t2 t3 t4 t5 : Number) : string :=
  "perf " ++ parseInt_elapsed t1 t0 ++ " " ++ parseInt_elapsed t3 t2 ++ " "
          ++ parseInt_elapsed t5 t4 ++ " ".

(** The error the second handler's download step throws. *)
Definition promise_missing : JsError :=
  TypeError "S3Instance.getObject(...).promise is not a function".

Definition wrong_secret_event (path : string) : Event :=
  {| headers := Some {[ "x-origin-secret-header" := "guess" ]};
     requestContext :=
       Some {| http := Some {| http_method := Some "GET"; http_path := Some path |} |} |}.

Definition post_event (path : string) : Event :=
  {| headers := Some {[ "x-origin-secret-header" := "0123456789abcdef" ]};
     requestContext :=
       Some {| http := Some {| http_method := Some "POST"; http_path := Some path |} |} |}.

Definition bare_event : Event :=
  {| headers := Some ∅; requestContext := None |}.

(** An object the sample codec refuses. *)
Definition empty_object : GetObjectOutput :=
  {| Body := []; ContentType := Some "image/png" |}.

Definition store_with_empty : Samples.MemStore :=
  {| Samples.objects := {[ ("originals", "images/empty.png") := empty_object ]};
     Samples.writable := true |}.

(** A codec whose [metadata] succeeds and whose [toBuffer] fails. *)
Definition failing_toBuffer : SharpLib :=
  {| sharp_metadata := λ _, inr {| md_format := "jpeg"; md_width := 1; md_height := 1 |};
     sharp_toBuffer := λ _, inl (SharpError "VipsJpeg: premature end of JPEG image") |}.

Definition world_with_empty : @World Samples.demo_runtime Samples.MemStore :=
  @mkWorld Samples.demo_runtime _ store_with_empty [] [] [].

Definition world_with_clock : @World Samples.demo_runtime Samples.MemStore :=
  @mkWorld Samples.demo_runtime _ (Samples.store true) [] []
    [100; 130; 131; 181; 182; 190; 999]%Z.

Definition env_without_cache : Env :=
  {| originalImageBucketName := Some "originals";
     transformedImageBucketName := None;
     transformedImageCacheTTL := Some "max-age=31622400";
     secretKey := Some "0123456789abcdef";
     logTiming := Some "true" |}.

End Coverage.

(** ** The Request Normalizer: proofs *)

Section NormalizerFacts.
Import Normalizer Props.

Implicit Types (qs : list (string * QueryValue)) (m : gmap string string).

Lemma truthy_false_inv (s : string) : Js.truthy s = false → s = "".
Proof. by destruct s. Qed.

Lemma allowed_is_truthy (p : string) :
  Js.includes ALLOWED_PRESETS p = true → Js.truthy p = true.
Proof. destruct p; [vm_compute; discriminate | done]. Qed.

Lemma member_elem_of qs k q : member qs k = Some q → (k, q) ∈ qs.
Proof.
  induction qs as [|[k' q'] rest IH]; simpl; [done|].
  destruct (String.eqb_spec k' k) as [->|Hne].
  - intros [= ->]. left.
  - intros Hm. right. by apply IH.
Qed.

Lemma member_NoDup qs k q :
  NoDup (map fst qs) → (k, q) ∈ qs → member qs k = Some q.
Proof.
  induction qs as [|[k' q'] rest IH]; simpl.
  - intros _ Hin. by apply elem_of_nil in Hin.
  - intros Hnd Hin. apply NoDup_cons in Hnd as [Hfresh Hnd].
    apply elem_of_cons in Hin as [[= -> ->]|Hin].
    + by rewrite String.eqb_refl.
    + destruct (String.eqb_spec k' k) as [->|Hne]; [|by apply IH].
      exfalso. apply Hfresh. change k with (fst (k, q)).
      apply list_elem_of_fmap_2 with (f := fst). done.
Qed.

(** What the [forEach] callback does with a parameter it finds. *)
Lemma normalizeOperation_member qs m k q :
  member qs k = Some q →
  normalizeOperation qs m k =
    if accepted (k, q) then <["preset" := Js.toLowerCase (value q)]> m else m.
Proof.
  intros Hm. unfold normalizeOperation, accepted. simpl. rewrite Hm.
  destruct (Js.toLowerCase k =? "preset")%string; simpl; [|done].
  destruct (Js.truthy (value q)) eqn:Ht; simpl; [done|].
  apply truthy_false_inv in Ht. by rewrite Ht.
Qed.

Lemma last_accepted_Some qs p :
  last_accepted qs = Some p →
  ∃ kv, kv ∈ qs ∧ accepted kv = true ∧ p = Js.toLowerCase (value (snd kv)).
Proof.
  induction qs as [|kv rest IH]; simpl; [done|].
  destruct (last_accepted rest) as [p'|].
  - intros [= ->]. destruct (IH eq_refl) as (kv' & Hin & Ha & Hp).
    exists kv'. split; [by right|done].
  - destruct (accepted kv) eqn:Ha; [|done].
    intros [= <-]. exists kv. split; [left|done].
Qed.

Lemma last_accepted_None qs :
  last_accepted qs = None ↔ ∀ kv, kv ∈ qs → accepted kv = false.
Proof.
  induction qs as [|kv rest IH]; simpl.
  - split; [|done]. intros _ kv Hin. by apply elem_of_nil in Hin.
  - destruct (last_accepted rest) as [p|] eqn:Hl.
    + split; [done|]. intros Hall.
      destruct (last_accepted_Some _ _ Hl) as (kv' & Hin & Ha & _).
      rewrite Hall in Ha; [done|by right].
    + destruct (accepted kv) eqn:Ha.
      * split; [done|]. intros Hall. rewrite Hall in Ha; [done|left].
      * split; [|done]. intros _ kv' Hin.
        apply elem_of_cons in Hin as [->|Hin]; [done|]. by apply IH.
Qed.

Lemma last_accepted_agree qs kv p :
  kv ∈ qs → accepted kv = true → accepted_agree qs p → last_accepted qs = Some p.
Proof.
  intros Hin Ha Hagree.
  destruct (last_accepted qs) as [p'|] eqn:Hl.
  - destruct (last_accepted_Some _ _ Hl) as (kv' & Hin' & Ha' & ->).
    f_equal. by apply Hagree.
  - apply last_accepted_None with (kv := kv) in Hl; [congruence|done].
Qed.

Lemma fold_normalizeOperation qs (l : list (string * QueryValue)) m :
  (∀ kv, kv ∈ l → member qs (fst kv) = Some (snd kv)) →
  fold_left (normalizeOperation qs) (map fst l) m =
    match last_accepted l with
    | Some p => <["preset" := p]> m
    | None => m
    end.
Proof.
  revert m. induction l as [|[k q] rest IH]; intros m Hmem; simpl; [done|].
  rewrite IH by (intros kv Hin; apply Hmem; by right).
  rewrite (normalizeOperation_member qs m k q) by (apply (Hmem (k, q)); left).
  destruct (last_accepted rest) as [p|], (accepted (k, q)); simpl; try done.
  by rewrite insert_insert_eq.
Qed.

Lemma normalizedOperationsOf_NoDup qs :
  NoDup (map fst qs) →
  normalizedOperationsOf qs =
    match last_accepted qs with
    | Some p => {["preset" := p]}
    | None => ∅
    end.
Proof.
  intros Hnd. unfold normalizedOperationsOf.
  rewrite fold_normalizeOperation.
  - destruct (last_accepted qs); [by rewrite insert_empty|done].
  - intros [k q] Hin. by apply member_NoDup.
Qed.

(** The rewritten uri, for a well-formed query-string object. *)
Lemma handler_uri path qs :
  NoDup (map fst qs) →
  uri (handler (request path qs)) =
    match last_accepted qs with
    | Some p => path ++ "/preset=" ++ p
    | None => path ++ "/original"
    end.
Proof.
  intros Hnd. unfold handler, request. simpl.
  rewrite normalizedOperationsOf_NoDup by done.
  destruct (last_accepted qs) as [p|] eqn:Hl.
  - rewrite map_size_singleton. simpl.
    unfold normalizedOperationsArray. rewrite lookup_singleton_eq.
    destruct (last_accepted_Some _ _ Hl) as (kv & _ & Ha & ->).
    unfold accepted in Ha. apply andb_true_iff in Ha as [_ Ha].
    by rewrite (allowed_is_truthy _ Ha).
  - by rewrite map_size_empty.
Qed.

Lemma same_up_to_case_accepted a b :
  Js.toLowerCase (fst a) = Js.toLowerCase (fst b) →
  Js.toLowerCase (value (snd a)) = Js.toLowerCase (value (snd b)) →
  accepted a = accepted b.
Proof. intros H1 H2. unfold accepted. by rewrite H1, H2. Qed.

Lemma same_up_to_case_last_accepted qs qs' :
  same_up_to_case qs qs' → last_accepted qs' = last_accepted qs.
Proof.
  induction 1 as [|a b l l' [Hk Hv] _ IH]; simpl; [done|].
  rewrite IH, <- (same_up_to_case_accepted a b Hk Hv), Hv. done.
Qed.

Lemma accepted_agree_perm qs qs' p :
  qs' ≡ₚ qs → accepted_agree qs p → accepted_agree qs' p.
Proof. intros Hp Hag kv Hin. apply Hag. by rewrite <- Hp. Qed.

Lemma string_app_length (s t : string) :
  String.length (s ++ t) = (String.length s + String.length t)%nat.
Proof. induction s as [|c s IH]; simpl; [done|]. by rewrite IH. Qed.

Lemma append_original_neq (s : string) : s ++ "/original" ≠ s.
Proof.
  intros Heq. apply (f_equal String.length) in Heq.
  rewrite string_app_length in Heq. simpl in Heq. lia.
Qed.
End NormalizerFacts.

Section NormalizerClaims.
Import Normalizer Props.

Lemma normalizeOperation_unaccepted (qs : list (string * QueryValue))
    (m : gmap string string) (operation : string) :
  (∀ kv, kv ∈ qs → accepted kv = false) →
  normalizeOperation qs m operation = m.
Proof.
  intros Hall. unfold normalizeOperation.
  destruct (Js.toLowerCase operation =? "preset")%string eqn:Hname; [|done].
  destruct (member qs operation) as [q|] eqn:Hm; [|done].
  apply member_elem_of, Hall in Hm. unfold accepted in Hm. cbn [fst snd] in Hm.
  rewrite Hname, andb_true_l in Hm. rewrite Hm, andb_false_r.
  by destruct (Js.truthy (value q)).
Qed.

Lemma fold_unaccepted (qs : list (string * QueryValue)) (keys : list string)
    (m : gmap string string) :
  (∀ kv, kv ∈ qs → accepted kv = false) →
  fold_left (normalizeOperation qs) keys m = m.
Proof.
  intros Hall. revert m. induction keys as [|k keys IH]; intros m; simpl; [done|].
  by rewrite normalizeOperation_unaccepted.
Qed.

(** C1, as the code has it.  For a query-string object [qs] (distinct
    member names), the uri becomes [path ++ "/preset=" ++ p] where [p] is
    the lower-cased value of the last accepted parameter in key order.
    When all accepted parameters carry the same lower-cased value [p] (in
    particular when only one parameter is accepted), the uri is
    [path ++ "/preset=" ++ p], and it is the same for every recasing of
    the names and values and for every reordering of the parameters. *)
Theorem normalizer_preset_descriptor (path : string) (qs : list (string * QueryValue)) :
  NoDup (map fst qs) →
  (∀ p, last_accepted qs = Some p →
        uri (handler (request path qs)) = path ++ "/preset=" ++ p)
  ∧ (∀ kv, kv ∈ qs → accepted kv = true →
       let p := Js.toLowerCase (value (snd kv)) in
       accepted_agree qs p →
       uri (handler (request path qs)) = path ++ "/preset=" ++ p
       ∧ (∀ qs', NoDup (map fst qs') → same_up_to_case qs qs' →
                 uri (handler (request path qs')) = path ++ "/preset=" ++ p)
       ∧ (∀ qs', qs' ≡ₚ qs →
                 uri (handler (request path qs')) = path ++ "/preset=" ++ p)).
Proof.
  intros Hnd. split.
  - intros p Hl. by rewrite handler_uri, Hl.
  - intros kv Hin Ha p Hagree.
    pose proof (last_accepted_agree qs kv p Hin Ha Hagree) as Hl.
    split; [by rewrite handler_uri, Hl|]. split.
    + intros qs' Hnd' Hcase.
      by rewrite handler_uri, (same_up_to_case_last_accepted qs qs'), Hl.
    + intros qs' Hperm.
      assert (NoDup (map fst qs')) as Hnd'.
      { by rewrite (Permutation_map fst Hperm). }
      rewrite handler_uri by done.
      rewrite (last_accepted_agree qs' kv p); [done| by rewrite Hperm |done|].
      by apply (accepted_agree_perm qs).
Qed.

Lemma normalizer_preset_descriptor_witness :
  uri (handler (request Samples.rio_path Samples.mixed_case_preset))
    = "/images/rio/1.jpeg/preset=medium"
  ∧ uri (handler (request Samples.rio_path [param "WIDTH" "100"; param "preset" "medium"]))
    = "/images/rio/1.jpeg/preset=medium"
  ∧ uri (handler (request Samples.rio_path [param "PreSet" "MEDIUM"; param "width" "100"]))
    = "/images/rio/1.jpeg/preset=medium".
Proof.
  assert (NoDup (map fst Samples.mixed_case_preset)) as Hnd.
  { apply (bool_decide_unpack _). vm_compute. exact I. }
  destruct (normalizer_preset_descriptor Samples.rio_path Samples.mixed_case_preset Hnd)
    as [_ H].
  assert (param "PreSet" "MEDIUM" ∈ Samples.mixed_case_preset) as Hin by (right; left).
  assert (accepted_agree Samples.mixed_case_preset "medium") as Hagree.
  { intros kv Hkv.
    apply elem_of_cons in Hkv as [->|Hkv]; [vm_compute; discriminate|].
    apply elem_of_cons in Hkv as [->|Hkv]; [reflexivity|].
    by apply elem_of_nil in Hkv. }
  destruct (H _ Hin eq_refl Hagree) as (H1 & H2 & H3).
  split; [exact H1|]. split.
  - apply (H2 [param "WIDTH" "100"; param "preset" "medium"]).
    + apply (bool_decide_unpack _). vm_compute. exact I.
    + repeat (constructor; [split; reflexivity|]). constructor.
  - apply (H3 [param "PreSet" "MEDIUM"; param "width" "100"]). apply perm_swap.
Defined.

(** C1, as stated, fails on a query string with two accepted parameters
    whose names differ in case only: the last one in key order wins, and
    the outcome depends on the order. *)
Lemma normalizer_preset_descriptor_counterexample :
  NoDup (map fst Samples.two_presets)
  ∧ param "preset" "medium" ∈ Samples.two_presets
  ∧ Js.toLowerCase (fst (param "preset" "medium")) = "preset"
  ∧ Js.includes ALLOWED_PRESETS (Js.toLowerCase (value (snd (param "preset" "medium"))))
      = true
  ∧ uri (handler (request Samples.rio_path Samples.two_presets))
      = "/images/rio/1.jpeg/preset=large"
  ∧ uri (handler (request Samples.rio_path Samples.two_presets))
      ≠ Samples.rio_path ++ "/preset="
          ++ Js.toLowerCase (value (snd (param "preset" "medium")))
  ∧ uri (handler (request Samples.rio_path Samples.two_presets_swapped))
      ≠ uri (handler (request Samples.rio_path Samples.two_presets)).
Proof.
  split; [apply (bool_decide_unpack _); vm_compute; exact I|].
  split; [left|].
  repeat split; try reflexivity; vm_compute; discriminate.
Qed.

(** C7.  When no parameter is accepted (each has an unrecognized name or
    a value outside the allow-list), or the request has no query string
    at all, the uri becomes [uri ++ "/original"]; and in every case the
    outgoing request has an empty query string. *)
Theorem normalizer_original_and_cleared (r : Request) :
  (match querystring r with
   | Some qs => ∀ kv, kv ∈ qs → accepted kv = false
   | None => True
   end → uri (handler r) = uri r ++ "/original")
  ∧ querystring (handler r) = Some [].
Proof.
  split; [|done].
  unfold handler. simpl. destruct (querystring r) as [qs|]; [|done].
  intros Hall. unfold normalizedOperationsOf. rewrite fold_unaccepted by done.
  by rewrite map_size_empty.
Qed.

Lemma normalizer_original_and_cleared_witness :
  uri (handler (request Samples.rio_path Samples.unknown_preset))
    = "/images/rio/1.jpeg/original"
  ∧ querystring (handler (request Samples.rio_path Samples.unknown_preset)) = Some [].
Proof.
  destruct (normalizer_original_and_cleared
              (request Samples.rio_path Samples.unknown_preset)) as [H1 H2].
  split; [|exact H2]. apply H1. simpl. intros kv Hkv.
  apply elem_of_cons in Hkv as [->|Hkv]; [reflexivity|].
  apply elem_of_cons in Hkv as [->|Hkv]; [reflexivity|].
  by apply elem_of_nil in Hkv.
Defined.

(** C4, as the code has it.  The handler has no guard for a path that
    already ends in a descriptor: applied to its own output (whose query
    string it has cleared) it appends a second segment, ["/original"]. *)
Theorem normalizer_second_pass (r : Request) :
  uri (handler (handler r)) = uri (handler r) ++ "/original"
  ∧ uri (handler (handler r)) ≠ uri (handler r).
Proof.
  assert (uri (handler (handler r)) = uri (handler r) ++ "/original") as Heq.
  { unfold handler at 1. simpl. reflexivity. }
  split; [exact Heq|]. rewrite Heq. apply append_original_neq.
Qed.

Lemma normalizer_second_pass_counterexample :
  uri (handler (request Samples.rio_path Samples.mixed_case_preset))
    = "/images/rio/1.jpeg/preset=medium"
  ∧ querystring (handler (request Samples.rio_path Samples.mixed_case_preset)) = Some []
  ∧ uri (handler (handler (request Samples.rio_path Samples.mixed_case_preset)))
      = "/images/rio/1.jpeg/preset=medium/original"
  ∧ uri (handler (handler (request Samples.rio_path Samples.mixed_case_preset)))
      ≠ uri (handler (request Samples.rio_path Samples.mixed_case_preset)).
Proof. repeat split; try reflexivity. vm_compute. discriminate. Qed.
End NormalizerClaims.

(** ** The Transformation Engine: proofs *)

Section EngineFacts.
Import Engine Props.
Context {S : Type} `{!S3Client S} `{!SharpLib} {R : JsRuntime}.
Variable env : Env.

(** Unfolds the monadic plumbing of a handler. *)
Ltac run :=
  unfold mbind, mret, M_bind, M_ret, bind, ret, try, lift, throw,
    console_log, performance_now, S3_getObject, S3_putObject,
    S3v3_getObject_promise, S3v3_putObject in *;
  cbn [fst snd s3 console s3_calls perf] in *.

Lemma v1_sendError_run (code : JsValue) (msg : string) (error : Loggable) (w : World S) :
  EngineV1.sendError code msg error w =
    (Normal {| statusCode := JNum 200; body := msg;
               isBase64Encoded := None; response_headers := None |},
     mkWorld (s3 w)
       (console w ++ [[LogStr "APPLICATION ERROR"; LogStr msg]; [error]])
       (s3_calls w) (perf w)).
Proof. unfold EngineV1.sendError. run. by rewrite <- app_assoc. Qed.

Lemma v2_sendError_run (code : JsValue) (msg : string) (error : Loggable) (w : World S) :
  EngineV2.sendError code msg error w =
    (Normal {| statusCode := code; body := msg;
               isBase64Encoded := None; response_headers := None |},
     mkWorld (s3 w)
       (console w ++ [[LogStr "APPLICATION ERROR"; LogStr msg]; [error]])
       (s3_calls w) (perf w)).
Proof. unfold EngineV2.sendError. run. by rewrite <- app_assoc. Qed.

Ltac open_v1 :=
  unfold EngineV1.handler, EngineV1.event_path, EngineV1.upload, EngineV1.transform,
    EngineV1.sendError, EngineV1.S3_ORIGINAL_IMAGE_BUCKET,
    EngineV1.S3_TRANSFORMED_IMAGE_BUCKET, EngineV1.TRANSFORMED_IMAGE_CACHE_TTL,
    EngineV1.LOG_TIMING in *;
  run.

Ltac open_v2 :=
  unfold EngineV2.handler, EngineV2.event_path, EngineV2.secret_header, EngineV2.is_GET,
    EngineV2.upload, EngineV2.transform, EngineV2.sendError,
    EngineV2.S3_ORIGINAL_IMAGE_BUCKET, EngineV2.S3_TRANSFORMED_IMAGE_BUCKET,
    EngineV2.TRANSFORMED_IMAGE_CACHE_TTL, EngineV2.SECRET_KEY in *;
  run.

Ltac open_path :=
  unfold path_of, operationsPrefix_of, originalImagePath_of, operationsJSON_of, Js.pop in *;
  cbn [fst snd mbind option_bind] in *.

Lemma v1_upload_unconfigured (bytes : Buffer) (key prefix ct : string) (w : World S) :
  truthy (transformedImageBucketName env) = false →
  EngineV1.upload env bytes key prefix ct w = (Normal tt, w).
Proof.
  open_v1. destruct (transformedImageBucketName env) as [b|]; [|done].
  simpl. by intros ->.
Qed.

Lemma v1_upload_configured (bytes : Buffer) (key prefix ct bucket : string) (w : World S) :
  transformedImageBucketName env = Some bucket → bucket ≠ "" →
  EngineV1.upload env bytes key prefix ct w =
    let req := {| put_Body := bytes; put_Bucket := bucket;
                  put_Key := key ++ "/" ++ prefix; put_ContentType := ct;
                  put_cache_control := transformedImageCacheTTL env |} in
    let '(res, s') := putObject (s3 w) req in
    (Normal tt,
     mkWorld s'
       (match res with
        | inl e => console w ++ error_lines "Could not upload transformed image to S3" (LogErr e)
        | inr _ => console w
        end)
       (s3_calls w ++ [CallPut req]) (perf w)).
Proof.
  intros Hb Hne. open_v1. rewrite Hb.
  destruct bucket; [done|]. simpl.
  destruct (putObject _ _) as [[e|[]] s']; simpl; [|done].
  by rewrite <- app_assoc.
Qed.

Lemma v1_upload_total (bytes : Buffer) (key prefix ct : string) (w : World S) :
  ∃ w', EngineV1.upload env bytes key prefix ct w = (Normal tt, w') ∧ perf w' = perf w.
Proof.
  destruct (truthy (transformedImageBucketName env)) eqn:Ht.
  - destruct (transformedImageBucketName env) as [bucket|] eqn:Hb; [|done].
    assert (bucket ≠ "") as Hne by (by intros ->).
    rewrite (v1_upload_configured _ _ _ _ bucket) by done. simpl.
    destruct (putObject _ _) as [res s']. by eexists.
  - rewrite v1_upload_unconfigured by done. by eexists.
Qed.

Lemma path_of_Some (event : Event) (path : string) :
  path_of event = Some path →
  ∃ rc h, requestContext event = Some rc ∧ http rc = Some h ∧ http_path h = Some path.
Proof.
  unfold path_of. destruct (requestContext event) as [rc|]; [|done]. simpl.
  destruct (http rc) as [h|] eqn:Hh; [|done]. simpl. intros Hp. by exists rc, h.
Qed.

Lemma split_last (sep : ascii) (s : string) : is_Some (last (Js.split sep s)).
Proof.
  induction s as [|c s IH]; simpl; [by eexists|].
  destruct (Ascii.eqb c sep).
  - destruct (Js.split sep s) as [|x l]; [by destruct IH|]. done.
  - destruct (Js.split sep s) as [|x l]; [by eexists|].
    destruct l; [by eexists|done].
Qed.

(** The download fails: the handler answers through [sendError] and stops. *)
Lemma v1_fetch_failure (event : Event) (path : string) (e : JsError) (w : World S) :
  path_of event = Some path →
  getObject (s3 w) {| get_Bucket := originalImageBucketName env;
                      get_Key := originalImagePath_of path |} = inl e →
  EngineV1.handler env event w =
    (Normal {| statusCode := JNum 200; body := "error downloading original image";
               isBase64Encoded := None; response_headers := None |},
     mkWorld (s3 w)
       (console w ++ [[LogStr "APPLICATION ERROR";
                       LogStr "error downloading original image"]; [LogErr e]])
       (s3_calls w ++ [CallGet {| get_Bucket := originalImageBucketName env;
                                  get_Key := originalImagePath_of path |}])
       (tail (perf w))).
Proof.
  intros (rc & h & Hrc & Hh & Hp)%path_of_Some Hget.
  destruct (split_last "/" path) as [prefix Hlast].
  open_v1. open_path. rewrite Hrc, Hh, Hp, Hlast, Hget.
  by rewrite <- app_assoc.
Qed.

(** Past its two guards the second handler always fails at the download:
    the call to the missing [promise] member throws inside the first [try]. *)
Lemma v2_download_throws (event : Event) (path : string) (w : World S) :
  authorized env event → EngineV2.is_GET event = true →
  path_of event = Some path →
  EngineV2.handler env event w =
    (Normal {| statusCode := JNum 500; body := "error downloading original image";
               isBase64Encoded := None; response_headers := None |},
     mkWorld (s3 w)
       (console w ++ [[LogStr "APPLICATION ERROR";
                       LogStr "error downloading original image"];
                      [LogErr (TypeError "S3Instance.getObject(...).promise is not a function")]])
       (s3_calls w ++ [CallGet {| get_Bucket := originalImageBucketName env;
                                  get_Key := originalImagePath_of path |}])
       (perf w)).
Proof.
  intros (hs & secret & Hhs & Hsecret & Hne & Hkey) Hget.
  intros (rc & h & Hrc & Hh & Hp)%path_of_Some.
  destruct (split_last "/" path) as [prefix Hlast].
  unfold EngineV2.handler, EngineV2.secret_header. rewrite Hget. open_v2. open_path.
  rewrite Hhs, Hsecret, Hkey. simpl.
  rewrite bool_decide_eq_true_2 by done.
  destruct secret; [done|]. simpl.
  rewrite Hrc, Hh, Hp, Hlast. by rewrite <- app_assoc.
Qed.
(** A run in which download, decoding and encoding all succeed: the
    response carries the encoded bytes whatever the upload block does. *)
Lemma v1_success (event : Event) (path prefix : string) (original : GetObjectOutput)
    (md : Metadata) (bytes : Buffer) (w : World S) :
  path_of event = Some path → operationsPrefix_of path = Some prefix →
  getObject (s3 w) (source_request env path) = inr original →
  sharp_metadata (Sharp (Body original) "none" true) = inr md →
  let st := EngineV1.resolve_settings (operationsJSON_of prefix) in
  sharp_toBuffer (pipeline_for st original) = inr bytes →
  let w1 := mkWorld (s3 w) (console w) (s3_calls w ++ [CallGet (source_request env path)])
              (drop 5 (perf w)) in
  ∃ w2 w',
    EngineV1.upload env bytes (originalImagePath_of path) prefix
      (fst (contentType_of_format (format st))) w1 = (Normal tt, w2)
    ∧ EngineV1.handler env event w = (Normal (image_response env st bytes), w')
    ∧ s3 w' = s3 w2 ∧ s3_calls w' = s3_calls w2 ∧ console w2 `prefix_of` console w'.
Proof.
  intros (rc & h & Hrc & Hh & Hp)%path_of_Some Hlast Hget Hmd st Hbuf w1.
  destruct (v1_upload_total bytes (originalImagePath_of path) prefix
              (fst (contentType_of_format (format st))) w1) as (w2 & Hup & Hperf).
  exists w2. subst w1.
  unfold EngineV1.handler, EngineV1.event_path, EngineV1.transform,
    EngineV1.S3_ORIGINAL_IMAGE_BUCKET, EngineV1.TRANSFORMED_IMAGE_CACHE_TTL,
    EngineV1.LOG_TIMING.
  unfold source_request, pipeline_for, image_response in *.
  run. open_path. rewrite Hrc, Hh, Hp, Hlast, Hget, Hmd. simpl.
  fold st. destruct (contentType_of_format (format st)) as [ct lossy] eqn:Hct.
  simpl in *. rewrite Hbuf. run.
  replace (tail (tail (tail (tail (tail (perf w)))))) with (drop 5 (perf w))
    by (by destruct (perf w) as [|? [|? [|? [|? [|? ?]]]]]).
  rewrite Hup.
  destruct (bool_decide (logTiming env = Some "true")); eexists; simpl;
    (split; [done|]); (split; [done|]); (split; [done|]); (split; [done|]).
  - by apply prefix_app_r.
  - done.
Qed.
(** On the segments the Normalizer produces the two preset switches agree. *)
Lemma settings_agree_on_allow_list (prefix : string) :
  prefix = "original"
  ∨ (∃ name, name ∈ Normalizer.ALLOWED_PRESETS ∧ prefix = "preset=" ++ name) →
  EngineV1.resolve_settings (operationsJSON_of prefix)
    = EngineV2.resolve_settings (operationsJSON_of prefix).
Proof.
  intros [->|(name & Hin & ->)]; [by vm_compute|].
  unfold Normalizer.ALLOWED_PRESETS in Hin.
  repeat (apply elem_of_cons in Hin as [->|Hin]; [by vm_compute|]).
  by apply elem_of_nil in Hin.
Qed.

(** C3.  The transform has succeeded and a transformed-image bucket is
    configured, but [putObject] fails: the handler still returns status 200
    with the base64 of the encoded bytes and the resolved Content-Type; the
    failure shows on the console only. *)
Theorem cache_write_failure_keeps_response (event : Event) (path prefix bucket : string)
    (original : GetObjectOutput) (md : Metadata) (bytes : Buffer) (e : JsError)
    (s' : S) (w : World S) :
  path_of event = Some path → operationsPrefix_of path = Some prefix →
  getObject (s3 w) (source_request env path) = inr original →
  sharp_metadata (Sharp (Body original) "none" true) = inr md →
  let st := EngineV1.resolve_settings (operationsJSON_of prefix) in
  sharp_toBuffer (pipeline_for st original) = inr bytes →
  transformedImageBucketName env = Some bucket → bucket ≠ "" →
  putObject (s3 w) (cache_request env bucket path prefix st bytes) = (inl e, s') →
  ∃ w', EngineV1.handler env event w = (Normal (image_response env st bytes), w')
    ∧ statusCode (image_response env st bytes) = JNum 200
    ∧ body (image_response env st bytes) = toString_base64 bytes
    ∧ [LogStr "APPLICATION ERROR"; LogStr "Could not upload transformed image to S3"]
        ∈ console w'
    ∧ [LogErr e] ∈ console w'
    ∧ s3_calls w' = (s3_calls w ++ [CallGet (source_request env path);
                                    CallPut (cache_request env bucket path prefix st bytes)])%list.
Proof.
  intros Hpath Hlast Hget Hmd st Hbuf Hbucket Hne Hput.
  destruct (v1_success event path prefix original md bytes w Hpath Hlast Hget Hmd Hbuf)
    as (w2 & w' & Hup & Hrun & _ & Hcalls & Hconsole).
  rewrite (v1_upload_configured _ _ _ _ bucket) in Hup by done.
  cbn [s3 console s3_calls perf] in Hup. fold st in Hup.
  unfold cache_request in Hput. rewrite Hput in Hup.
  injection Hup as <-. cbn [s3_calls console] in *.
  exists w'. split; [done|]. split; [done|]. split; [done|].
  destruct Hconsole as [rest ->]. unfold error_lines.
  split; [|split].
  - apply elem_of_app; left. apply elem_of_app; right. left.
  - apply elem_of_app; left. apply elem_of_app; right. right. left.
  - rewrite Hcalls. by rewrite <- app_assoc.
Qed.

(** C5.  With the descriptor [original], or a descriptor without a
    [preset] member, the settings stay at their initial values: no resize
    dimension, format jpeg, quality 80.  The image library is asked for a
    resize without dimensions (which leaves the image size alone) and a
    jpeg encoding at quality 80, and a successful run answers with those
    bytes as [image/jpeg]. *)
Theorem default_policy_without_preset (operationsPrefix : string) :
  operationsPrefix = "original" ∨ operationsJSON_of operationsPrefix !! "preset" = None →
  let st := EngineV1.resolve_settings (operationsJSON_of operationsPrefix) in
  let no_resize := {| width := None; height := None |} in
  resizingOptions st = no_resize
  ∧ format st = "jpeg"
  ∧ parseInt (quality st) = Some 80%Z
  ∧ (∀ (image : Pipeline) (w : World S),
       EngineV1.transform image (operationsJSON_of operationsPrefix) w =
         (match sharp_toBuffer (toFormat (resize image no_resize) "jpeg" (Some 80%Z)) with
          | inr bytes => Normal (bytes, "image/jpeg")
          | inl e => Throw e
          end, w))
  ∧ (∀ (event : Event) (path : string) (original : GetObjectOutput) (md : Metadata)
       (bytes : Buffer) (w : World S),
       path_of event = Some path → operationsPrefix_of path = Some operationsPrefix →
       getObject (s3 w) (source_request env path) = inr original →
       sharp_metadata (Sharp (Body original) "none" true) = inr md →
       sharp_toBuffer (toFormat (resize (Sharp (Body original) "none" true) no_resize)
                         "jpeg" (Some 80%Z)) = inr bytes →
       ∃ w', EngineV1.handler env event w =
               (Normal {| statusCode := JNum 200;
                          body := toString_base64 bytes;
                          isBase64Encoded := Some true;
                          response_headers :=
                            Some {| Content_Type := "image/jpeg";
                                    Cache_Control := transformedImageCacheTTL env |} |},
                w')).
Proof.
  intros Hdesc st no_resize.
  assert (st = initial_settings) as Hst.
  { subst st. destruct Hdesc as [->|Hnone]; [by vm_compute|].
    unfold EngineV1.resolve_settings, prop. by rewrite Hnone. }
  rewrite Hst. split; [done|]. split; [done|]. split; [done|]. split.
  - intros image w. unfold EngineV1.transform. fold st. rewrite Hst. simpl.
    run. by destruct (sharp_toBuffer _).
  - intros event path original md bytes w Hpath Hlast Hget Hmd Hbuf.
    destruct (v1_success event path operationsPrefix original md bytes w)
      as (w2 & w' & _ & Hrun & _); try done.
    { fold st. by rewrite Hst. }
    exists w'. rewrite Hrun. fold st. by rewrite Hst.
Qed.

(** C9.  [sendError] answers with status 200 whatever status it is given,
    and so every response the handler returns, the image response and the
    two error responses alike, has status 200. *)
Theorem every_response_has_status_200 :
  (∀ (code : JsValue) (msg : string) (error : Loggable) (w : World S),
     ∃ r w', EngineV1.sendError code msg error w = (Normal r, w')
             ∧ statusCode r = JNum 200)
  ∧ (∀ (event : Event) (w w' : World S) (r : Response),
       EngineV1.handler env event w = (Normal r, w') → statusCode r = JNum 200).
Proof.
  split.
  - intros code msg error w. rewrite v1_sendError_run. by eexists _, _.
  - intros event w w' r. open_v1. intros Hrun.
    repeat (case_match; run; simplify_eq; try done).
Qed.

End EngineFacts.

(** ** The two switches *)

Section Switches.
Import Engine Props.

(** C6, as the code has it.  The content type computed from the format is
    defined for every format string and never empty; it follows the fixed
    table (jpeg, gif, webp, png, avif, anything else as jpeg) except at
    [jpg], which has a clause of its own giving [image/jpg]. *)
Theorem content_type_table (format : string) :
  fst (contentType_of_format format) =
    (if bool_decide (format = "jpg") then "image/jpg" else spec_content_type format)
  ∧ fst (contentType_of_format format) ≠ "".
Proof.
  unfold contentType_of_format, spec_content_type.
  destruct (String.eqb_spec format "jpeg") as [->|H1]; [by vm_compute|].
  destruct (String.eqb_spec format "jpg") as [->|H2]; [by vm_compute|].
  rewrite (bool_decide_eq_false_2 (format = "jpg")) by done.
  rewrite (bool_decide_eq_false_2 (format ∈ ["jpeg"; "jpg"]))
    by (by intros [?|[?|?%elem_of_nil]%elem_of_cons]%elem_of_cons).
  destruct (String.eqb_spec format "gif") as [->|H3]; [by vm_compute|].
  rewrite (bool_decide_eq_false_2 (format = "gif")) by done.
  destruct (String.eqb_spec format "webp") as [->|H4]; [by vm_compute|].
  rewrite (bool_decide_eq_false_2 (format = "webp")) by done.
  destruct (String.eqb_spec format "png") as [->|H5]; [by vm_compute|].
  rewrite (bool_decide_eq_false_2 (format = "png")) by done.
  destruct (String.eqb_spec format "avif") as [->|H6]; [by vm_compute|].
  rewrite (bool_decide_eq_false_2 (format = "avif")) by done.
  done.
Qed.

Lemma content_type_table_counterexample :
  fst (contentType_of_format "jpg") = "image/jpg"
  ∧ spec_content_type "jpg" = "image/jpeg"
  ∧ fst (contentType_of_format "jpg") ≠ spec_content_type "jpg".
Proof. by vm_compute. Qed.

End Switches.

(** ** Runs on the sample store *)

Section SampleRuns.
Import Engine Props.

(** C2, on the code: the source object is missing, the handler stops after
    the failed download and writes nothing to the store, but the response
    it returns has status 200; the second handler answers 500. *)
Theorem fetch_failure_answers_with_status_200 :
  fst (Samples.run_v1 Samples.missing_event true)
    = Normal (Samples.error_response 200 "error downloading original image")
  ∧ s3_calls (snd (Samples.run_v1 Samples.missing_event true))
      = [CallGet {| get_Bucket := Some "originals"; get_Key := "images/rio/2.jpeg" |}]
  ∧ s3 (snd (Samples.run_v1 Samples.missing_event true)) = Samples.store true
  ∧ fst (Samples.run_v2 Samples.missing_event true)
      = Normal (Samples.error_response 500 "error downloading original image").
Proof. by vm_compute. Qed.

Lemma cache_write_failure_keeps_response_witness :
  ∃ w', Samples.run_v1 Samples.medium_event false
          = (Normal {| statusCode := JNum 200; body := "UklPeHg=";
                       isBase64Encoded := Some true;
                       response_headers :=
                         Some {| Content_Type := "image/jpeg";
                                 Cache_Control := Some "max-age=31622400" |} |}, w')
    ∧ [LogErr (S3Error "AccessDenied")] ∈ console w'.
Proof.
  destruct (@cache_write_failure_keeps_response _ Samples.mem_s3 Samples.demo_sharp Samples.demo_runtime
              Samples.env Samples.medium_event "/images/rio/1.jpeg/preset=medium"
              "preset=medium" "transformed" Samples.rio
              {| md_format := "jpeg"; md_width := 3000; md_height := 2000 |}
              ["R"; "I"; "O"; "x"; "x"]%byte (S3Error "AccessDenied")
              (Samples.store false) (Samples.world false))
    as (w' & Hrun & _ & _ & _ & Hlog & _);
    try (vm_compute; reflexivity); try discriminate.
  exists w'. split; [exact Hrun | exact Hlog].
Defined.

Lemma default_policy_without_preset_witness :
  resizingOptions (EngineV1.resolve_settings (operationsJSON_of "width=100,format=auto"))
    = {| width := None; height := None |}
  ∧ format (EngineV1.resolve_settings (operationsJSON_of "width=100,format=auto")) = "jpeg"
  ∧ parseInt (quality (EngineV1.resolve_settings (operationsJSON_of "width=100,format=auto")))
      = Some 80%Z.
Proof.
  assert (operationsJSON_of "width=100,format=auto" !! "preset" = None) as Hnone
    by (vm_compute; reflexivity).
  destruct (@default_policy_without_preset _ Samples.mem_s3 Samples.demo_sharp Samples.demo_runtime
              Samples.env "width=100,format=auto" (or_intror Hnone))
    as (H1 & H2 & H3 & _).
  split; [exact H1|]. split; [exact H2 | exact H3].
Defined.

Lemma every_response_has_status_200_witness :
  match fst (Samples.run_v1 Samples.medium_event true) with
  | Normal r => statusCode r = JNum 200
  | Throw _ => False
  end.
Proof.
  destruct (Samples.run_v1 Samples.medium_event true) as [[r|e] w'] eqn:Hrun.
  - exact (proj2 (@every_response_has_status_200 _ Samples.mem_s3 Samples.demo_sharp Samples.demo_runtime
                    Samples.env) Samples.medium_event (Samples.world true) w' r Hrun).
  - vm_compute in Hrun. discriminate.
Defined.

(** C10, on the code: the second handler never gets past its download.
    On a request the first handler serves with the transformed image, the
    second one answers 500 ['error downloading original image']: its call
    of [.promise()] on the SDK v3 client throws inside the first [try].
    The original has been requested, nothing is transformed or cached. *)
Theorem second_handler_fails_at_download :
  payload (fst (Samples.run_v1 Samples.medium_event true))
    = inr ("UklPeHg=", Some true,
           Some {| Content_Type := "image/jpeg";
                   Cache_Control := Some "max-age=31622400" |})
  ∧ fst (Samples.run_v2 Samples.medium_event true)
      = Normal (Samples.error_response 500 "error downloading original image")
  ∧ payload (fst (Samples.run_v1 Samples.medium_event true))
      ≠ payload (fst (Samples.run_v2 Samples.medium_event true))
  ∧ s3_calls (snd (Samples.run_v2 Samples.medium_event true))
      = [CallGet {| get_Bucket := Some "originals"; get_Key := "images/rio/1.jpeg" |}]
  ∧ s3 (snd (Samples.run_v2 Samples.medium_event true)) = Samples.store true.
Proof. repeat split; by vm_compute. Qed.

(** The scenarios of the specification, on the embedding. *)
Example split_request_path :
  Js.split "/" "/images/rio/1.jpeg/preset=medium"
    = [""; "images"; "rio"; "1.jpeg"; "preset=medium"]
  ∧ operationsPrefix_of "/images/rio/1.jpeg/preset=medium" = Some "preset=medium"
  ∧ originalImagePath_of "/images/rio/1.jpeg/preset=medium" = "images/rio/1.jpeg".
Proof. by vm_compute. Qed.

Example scenario_preset_medium :
  Normalizer.uri (Normalizer.handler (request Samples.rio_path [param "preset" "MEDIUM"]))
    = "/images/rio/1.jpeg/preset=medium"
  ∧ EngineV1.resolve_settings (operationsJSON_of "preset=medium")
      = {| resizingOptions := {| width := Some 512%Z; height := Some 512%Z |};
           format := "jpeg"; quality := "70" |}
  ∧ fst (contentType_of_format "jpeg") = "image/jpeg".
Proof. by vm_compute. Qed.

Example scenario_no_query :
  Normalizer.uri (Normalizer.handler (request Samples.rio_path []))
    = "/images/rio/1.jpeg/original"
  ∧ Normalizer.uri (Normalizer.handler
      {| Normalizer.method := "GET"; Normalizer.uri := Samples.rio_path;
         Normalizer.querystring := None |})
    = "/images/rio/1.jpeg/original"
  ∧ EngineV1.resolve_settings (operationsJSON_of "original") = initial_settings.
Proof. by vm_compute. Qed.

Example base64_samples :
  toString_base64 [] = ""
  ∧ toString_base64 ["M"]%byte = "TQ=="
  ∧ toString_base64 ["M"; "a"]%byte = "TWE="
  ∧ toString_base64 ["M"; "a"; "n"]%byte = "TWFu".
Proof. by vm_compute. Qed.

(** Outside the allow-list the two handlers can differ: [icon] has a
    clause in the first handler only. *)
Example engines_differ_on_icon :
  EngineV1.resolve_settings (operationsJSON_of "preset=icon")
    ≠ EngineV2.resolve_settings (operationsJSON_of "preset=icon").
Proof. vm_compute. discriminate. Qed.
End SampleRuns.

(** ** Further properties: paths and descriptors *)

Section PathFacts.
Import Engine Props Coverage.

Lemma split_nonempty (sep : ascii) (s : string) : Js.split sep s ≠ [].
Proof.
  destruct s as [|c s]; simpl; [done|].
  destruct (Ascii.eqb c sep); [done|]. by destruct (Js.split sep s).
Qed.

Lemma split_no_char (sep : ascii) (s : string) :
  no_char sep s = true → Js.split sep s = [s].
Proof.
  induction s as [|c s IH]; simpl; [done|].
  intros [Hc Hs]%andb_true_iff. apply negb_true_iff in Hc.
  by rewrite Hc, IH.
Qed.

Lemma split_snoc (sep : ascii) (s t : string) :
  no_char sep t = true →
  Js.split sep (s ++ String sep t) = (Js.split sep s ++ [t])%list.
Proof.
  intros Ht. induction s as [|c s IH]; simpl.
  - by rewrite Ascii.eqb_refl, split_no_char.
  - rewrite IH. destruct (Ascii.eqb c sep); [done|].
    pose proof (split_nonempty sep s). by destruct (Js.split sep s).
Qed.

Lemma join_cons (sep x : string) (l : list string) :
  l ≠ [] → Js.join sep (x :: l) = x ++ sep ++ Js.join sep l.
Proof. by destruct l. Qed.

(** [join] undoes [split]. *)
Lemma join_split (sep : ascii) (s : string) :
  Js.join (String sep "") (Js.split sep s) = s.
Proof.
  induction s as [|c s IH]; simpl; [done|].
  destruct (Ascii.eqb_spec c sep) as [->|Hne].
  - rewrite join_cons by apply split_nonempty. by rewrite IH.
  - pose proof (split_nonempty sep s) as Hs.
    destruct (Js.split sep s) as [|piece rest]; [done|].
    destruct rest as [|y rest]; simpl in *; by rewrite <- IH.
Qed.

Lemma removelast_snoc (l : list string) (x : string) : removelast (l ++ [x]) = l.
Proof.
  induction l as [|y l IH]; simpl; [done|].
  rewrite IH. by destruct l.
Qed.

Lemma parse_built_path (prefix d : string) :
  no_char "/" d = true →
  Js.split "/" (prefix ++ "/" ++ d) = (Js.split "/" prefix ++ [d])%list
  ∧ operationsPrefix_of (prefix ++ "/" ++ d) = Some d.
Proof.
  intros Hd.
  assert (Js.split "/" (prefix ++ "/" ++ d) = (Js.split "/" prefix ++ [d])%list) as Hs
    by (by apply (split_snoc "/" prefix d)).
  split; [done|]. unfold operationsPrefix_of, Js.pop. cbn [fst].
  by rewrite Hs, last_snoc.
Qed.

Lemma parse_rooted_path (key d : string) :
  no_char "/" d = true → originalImagePath_of (("/" ++ key) ++ "/" ++ d) = key.
Proof.
  intros Hd. unfold originalImagePath_of, Js.pop, Js.shift. cbn [snd].
  rewrite (proj1 (parse_built_path ("/" ++ key) d Hd)).
  rewrite removelast_snoc. simpl. apply join_split.
Qed.

(** X1.  Path parsing undoes path building: for a request path
    ["/" ++ key ++ "/" ++ d] whose last segment [d] contains no slash, the
    handler pops [d] as [operationsPrefix] and reads [key] as the key of the
    original image, so the key it writes the transformed image under,
    [originalImagePath + '/' + operationsPrefix], is the request path
    without its leading slash. *)
Theorem path_parse_round_trip (key d : string) :
  no_char "/" d = true →
  operationsPrefix_of ("/" ++ key ++ "/" ++ d) = Some d
  ∧ originalImagePath_of ("/" ++ key ++ "/" ++ d) = key
  ∧ "/" ++ originalImagePath_of ("/" ++ key ++ "/" ++ d) ++ "/" ++ d
      = "/" ++ key ++ "/" ++ d.
Proof.
  intros Hd.
  change ("/" ++ key ++ "/" ++ d) with (("/" ++ key) ++ "/" ++ d).
  rewrite parse_rooted_path by done.
  split; [by apply parse_built_path|done].
Qed.

Lemma path_parse_round_trip_witness :
  operationsPrefix_of "/images/rio/1.jpeg/preset=medium" = Some "preset=medium"
  ∧ originalImagePath_of "/images/rio/1.jpeg/preset=medium" = "images/rio/1.jpeg".
Proof.
  destruct (path_parse_round_trip "images/rio/1.jpeg" "preset=medium" eq_refl)
    as (H1 & H2 & _).
  split; [exact H1 | exact H2].
Defined.

(** X2.  A path without a second slash is an edge case: its only segment is
    popped as [operationsPrefix] and the key of the original image is the
    empty string. *)
Theorem path_single_segment (d : string) :
  no_char "/" d = true →
  operationsPrefix_of ("/" ++ d) = Some d
  ∧ originalImagePath_of ("/" ++ d) = ""
  ∧ operationsPrefix_of d = Some d
  ∧ originalImagePath_of d = "".
Proof.
  intros Hd. unfold operationsPrefix_of, originalImagePath_of, Js.pop, Js.shift.
  change ("/" ++ d) with (String "/" d). cbn [fst snd Js.split].
  rewrite Ascii.eqb_refl, split_no_char by done. done.
Qed.

Lemma path_single_segment_witness :
  operationsPrefix_of "/favicon.ico" = Some "favicon.ico"
  ∧ originalImagePath_of "/favicon.ico" = "".
Proof.
  destruct (path_single_segment "favicon.ico" eq_refl) as (H1 & H2 & _).
  split; [exact H1 | exact H2].
Defined.

(** X3.  Descriptor decoding undoes descriptor encoding: for a value [p]
    that contains neither a comma nor an equals sign, the engine reads
    [p] back from the descriptor ["preset=" ++ p]. *)
Theorem descriptor_round_trip (p : string) :
  no_char "," p = true → no_char "=" p = true →
  prop (operationsJSON_of ("preset=" ++ p)) "preset" = Some p.
Proof.
  intros Hcomma Heq. unfold operationsJSON_of.
  rewrite (split_no_char "," ("preset=" ++ p)) by (simpl; exact Hcomma).
  cbn [map].
  replace (Js.split "=" ("preset=" ++ p)) with ["preset"; p]
    by (symmetry; apply (split_snoc "=" "preset" p Heq)).
  unfold fromEntries, prop, entry_key. cbn [fold_left lookup list_lookup default].
  unfold id. by rewrite lookup_insert_eq.
Qed.

Lemma descriptor_round_trip_witness :
  prop (operationsJSON_of "preset=medium_wide") "preset" = Some "medium_wide".
Proof. exact (descriptor_round_trip "medium_wide" eq_refl eq_refl). Defined.
End PathFacts.

(** ** Further properties: the Request Normalizer *)

Section NormalizerCoverage.
Import Normalizer Engine Props Coverage.

Lemma includes_elem_of (l : list string) (s : string) :
  Js.includes l s = true → s ∈ l.
Proof.
  unfold Js.includes. intros (x & Hin & Heq)%existsb_exists.
  apply String.eqb_eq in Heq as ->. by apply list_elem_of_In.
Qed.

Lemma normalizeOperation_ok (qs : list (string * QueryValue)) (m : gmap string string)
    (operation : string) :
  operations_ok m → operations_ok (normalizeOperation qs m operation).
Proof.
  intros Hm. unfold normalizeOperation.
  destruct (Js.toLowerCase operation =? "preset")%string; [|done].
  destruct (member qs operation) as [q|]; [|done].
  destruct (Js.truthy (value q)); [|done]. cbn [andb].
  destruct (Js.includes ALLOWED_PRESETS (Js.toLowerCase (value q))) eqn:Hin; [|done].
  right. exists (Js.toLowerCase (value q)). split; [done|].
  destruct Hm as [->|(p & _ & ->)]; [by rewrite insert_empty|].
  by rewrite insert_singleton_eq.
Qed.

Lemma fold_normalizeOperation_ok (qs : list (string * QueryValue)) (keys : list string)
    (m : gmap string string) :
  operations_ok m → operations_ok (fold_left (normalizeOperation qs) keys m).
Proof.
  revert m. induction keys as [|k keys IH]; intros m Hm; simpl; [done|].
  by apply IH, normalizeOperation_ok.
Qed.

Lemma handler_appends_descriptor (r : Request) :
  ∃ d, is_descriptor d ∧ uri (handler r) = uri r ++ "/" ++ d.
Proof.
  unfold handler. simpl. destruct (querystring r) as [qs|].
  - pose proof (fold_normalizeOperation_ok qs (map fst qs) ∅ (or_introl eq_refl)) as Hok.
    fold (normalizedOperationsOf qs) in Hok.
    destruct Hok as [->|(p & Hp & ->)].
    + rewrite map_size_empty. simpl. exists "original". split; [by left|done].
    + rewrite map_size_singleton. simpl. unfold normalizedOperationsArray.
      rewrite lookup_singleton_eq, (allowed_is_truthy p Hp). simpl.
      exists ("preset=" ++ p). split; [|done].
      right. exists p. split; [by apply includes_elem_of|done].
  - exists "original". split; [by left|done].
Qed.

Lemma descriptor_no_slash (d : string) : is_descriptor d → no_char "/" d = true.
Proof.
  intros [->|(p & Hin & ->)]; [done|].
  unfold ALLOWED_PRESETS in Hin.
  repeat (apply elem_of_cons in Hin as [->|Hin]; [done|]).
  by apply elem_of_nil in Hin.
Qed.

(** X4.  Whatever the query string holds, the Normalizer appends one of
    eleven path segments: [original], or [preset=] followed by a name of
    the allow-list.  No other text of the query string reaches the path. *)
Theorem normalizer_appends_known_descriptor (r : Request) :
  ∃ d, uri (handler r) = uri r ++ "/" ++ d
       ∧ (d = "original" ∨ ∃ p, p ∈ ALLOWED_PRESETS ∧ d = "preset=" ++ p).
Proof.
  destruct (handler_appends_descriptor r) as (d & Hd & Huri). by exists d.
Qed.

Lemma last_accepted_filter (qs : list (string * QueryValue)) :
  last_accepted (List.filter accepted qs) = last_accepted qs.
Proof.
  induction qs as [|kv rest IH]; simpl; [done|].
  destruct (accepted kv) eqn:Ha; simpl; rewrite IH, ?Ha; [done|].
  by destruct (last_accepted rest).
Qed.

Lemma NoDup_keys_filter (f : string * QueryValue → bool) (qs : list (string * QueryValue)) :
  NoDup (map fst qs) → NoDup (map fst (List.filter f qs)).
Proof.
  induction qs as [|kv rest IH]; simpl; [done|].
  intros [Hfresh Hnd]%NoDup_cons. destruct (f kv); simpl; [|by apply IH].
  apply NoDup_cons. split; [|by apply IH].
  intros Hin. apply Hfresh.
  apply list_elem_of_In, in_map_iff in Hin as (x & Hx & Hin).
  apply filter_In in Hin as [Hin _].
  apply list_elem_of_In, in_map_iff. by exists x.
Qed.

(** X5.  Parameters that are not accepted (other names, or preset values
    outside the allow-list) have no influence on the rewritten uri: the
    result is the one for the query string with those parameters removed. *)
Theorem normalizer_ignores_unaccepted (path : string) (qs : list (string * QueryValue)) :
  NoDup (map fst qs) →
  uri (handler (request path qs)) = uri (handler (request path (List.filter accepted qs))).
Proof.
  intros Hnd. rewrite !handler_uri by (done || by apply NoDup_keys_filter).
  by rewrite last_accepted_filter.
Qed.

Lemma normalizer_ignores_unaccepted_witness :
  uri (handler (request Samples.rio_path
         [param "cachebuster" "42"; param "Preset" "LARGE"; param "width" "9999"]))
    = uri (handler (request Samples.rio_path [param "Preset" "LARGE"])).
Proof.
  apply (normalizer_ignores_unaccepted Samples.rio_path
           [param "cachebuster" "42"; param "Preset" "LARGE"; param "width" "9999"]).
  apply (bool_decide_unpack _). vm_compute. exact I.
Defined.

(** X6.  The Normalizer's output is what the engine parses: for a request
    uri ["/" ++ key], the engine pops the appended descriptor as
    [operationsPrefix] and reads [key] as the key of the original image. *)
Theorem normalizer_output_parses_back (r : Request) (key : string) :
  uri r = "/" ++ key →
  ∃ d, uri (handler r) = uri r ++ "/" ++ d
       ∧ operationsPrefix_of (uri (handler r)) = Some d
       ∧ originalImagePath_of (uri (handler r)) = key.
Proof.
  intros Huri. destruct (handler_appends_descriptor r) as (d & Hd & Hout).
  apply descriptor_no_slash in Hd. exists d. rewrite Hout, Huri.
  split; [done|]. split; [by apply parse_built_path | by apply parse_rooted_path].
Qed.

Lemma normalizer_output_parses_back_witness :
  ∃ d, uri (handler (request Samples.rio_path Samples.mixed_case_preset))
         = Samples.rio_path ++ "/" ++ d
       ∧ operationsPrefix_of (uri (handler (request Samples.rio_path Samples.mixed_case_preset)))
           = Some d
       ∧ originalImagePath_of (uri (handler (request Samples.rio_path Samples.mixed_case_preset)))
           = "images/rio/1.jpeg".
Proof.
  exact (normalizer_output_parses_back
           (request Samples.rio_path Samples.mixed_case_preset) "images/rio/1.jpeg" eq_refl).
Defined.

Lemma explicit_label_for_allowed (p : string) :
  p ∈ ALLOWED_PRESETS →
  ∃ c, find (λ c, existsb (label_matches p) (labels c)) EngineV1.preset_clauses = Some c
       ∧ Case (Some p) ∈ labels c
       ∧ EngineV1.resolve_settings (operationsJSON_of ("preset=" ++ p))
           = apply_entry (entry c).
Proof.
  unfold ALLOWED_PRESETS. intros Hin.
  repeat (apply elem_of_cons in Hin as [->|Hin];
    [eexists; split; [by vm_compute|]; split; [by left | by vm_compute]|]).
  by apply elem_of_nil in Hin.
Qed.

(** X7.  Normalizer and engine together: the descriptor [d] the Normalizer
    appends is either [original], which the first handler resolves to the
    initial settings, or [preset=p] for an allow-listed [p], which it
    resolves to the entry of the first clause carrying a [case] label equal
    to [p]; the [default] label is never what selects the clause. *)
Theorem normalized_request_never_defaults (r : Request) :
  ∃ d, uri (handler r) = uri r ++ "/" ++ d
       ∧ operationsPrefix_of (uri (handler r)) = Some d
       ∧ ((d = "original"
           ∧ EngineV1.resolve_settings (operationsJSON_of d) = initial_settings)
          ∨ ∃ p c, p ∈ ALLOWED_PRESETS ∧ d = "preset=" ++ p
              ∧ find (λ c, existsb (label_matches p) (labels c)) EngineV1.preset_clauses
                  = Some c
              ∧ Case (Some p) ∈ labels c
              ∧ EngineV1.resolve_settings (operationsJSON_of d) = apply_entry (entry c)).
Proof.
  destruct (handler_appends_descriptor r) as (d & Hd & Hout).
  exists d. split; [done|]. rewrite Hout.
  split; [by apply parse_built_path, descriptor_no_slash|].
  destruct Hd as [->|(p & Hin & ->)]; [by left|].
  right. destruct (explicit_label_for_allowed p Hin) as (c & Hfind & Hlabel & Hres).
  by exists p, c.
Qed.
End NormalizerCoverage.

(** ** Further properties: the Transformation Engine *)

Section EngineCoverage.
Import Engine Props Coverage.
Context {S : Type} `{!S3Client S} `{!SharpLib} {R : JsRuntime}.
Variable env : Env.

Ltac run :=
  unfold mbind, mret, M_bind, M_ret, bind, ret, try, lift, throw,
    console_log, performance_now, S3_getObject, S3_putObject,
    S3v3_getObject_promise, S3v3_putObject in *;
  cbn [fst snd s3 console s3_calls perf] in *.

Ltac open_v1 :=
  unfold EngineV1.handler, EngineV1.event_path, EngineV1.upload, EngineV1.transform,
    EngineV1.sendError, EngineV1.S3_ORIGINAL_IMAGE_BUCKET,
    EngineV1.S3_TRANSFORMED_IMAGE_BUCKET, EngineV1.TRANSFORMED_IMAGE_CACHE_TTL,
    EngineV1.LOG_TIMING in *;
  run.

Ltac open_v2 :=
  unfold EngineV2.handler, EngineV2.event_path, EngineV2.secret_header, EngineV2.is_GET,
    EngineV2.upload, EngineV2.transform, EngineV2.sendError,
    EngineV2.S3_ORIGINAL_IMAGE_BUCKET, EngineV2.S3_TRANSFORMED_IMAGE_BUCKET,
    EngineV2.TRANSFORMED_IMAGE_CACHE_TTL, EngineV2.SECRET_KEY in *;
  run.

Ltac open_path :=
  unfold path_of, operationsPrefix_of, originalImagePath_of, operationsJSON_of, Js.pop in *;
  cbn [fst snd mbind option_bind] in *.

Ltac crush := repeat (case_match; run; simplify_eq; try done).

(** X8.  The second handler refuses every request that does not carry the
    configured secret: when the header is missing, empty or different from
    the secret (or no secret is configured at all), it answers 403
    ['Request unauthorized'] after logging the event, and calls neither the
    store nor the image library. *)
Theorem v2_rejects_unauthorized (event : Event) (hs : gmap string string) (w : World S) :
  headers event = Some hs → ¬ authorized env event →
  EngineV2.handler env event w =
    (Normal {| statusCode := JNum 403; body := "Request unauthorized";
               isBase64Encoded := None; response_headers := None |},
     mkWorld (s3 w) (console w ++ error_lines "Request unauthorized" (LogEvent event))
       (s3_calls w) (perf w)).
Proof.
  intros Hhs Hno. unfold EngineV2.handler, EngineV2.secret_header. rewrite Hhs.
  unfold mbind, M_bind, bind, mret, M_ret, ret. cbn [fst snd].
  assert (negb (truthy (hs !! "x-origin-secret-header"))
          || negb (bool_decide (hs !! "x-origin-secret-header" = EngineV2.SECRET_KEY env))
          = true) as ->.
  { destruct (hs !! "x-origin-secret-header") as [secret|] eqn:Hsecret; [|done].
    destruct (Js.truthy secret) eqn:Ht; simpl; rewrite Ht; [|done]. simpl.
    apply negb_true_iff, bool_decide_eq_false. intros Heq. apply Hno.
    exists hs, secret. repeat split; try done. by intros ->. }
  rewrite v2_sendError_run. done.
Qed.

(** X9.  An authorized request that is not a GET (or has no request
    context at all) is answered by the second handler with 400
    ['Only GET method is supported'], again without any call to the store. *)
Theorem v2_rejects_other_methods (event : Event) (w : World S) :
  authorized env event → EngineV2.is_GET event = false →
  EngineV2.handler env event w =
    (Normal {| statusCode := JNum 400; body := "Only GET method is supported";
               isBase64Encoded := None; response_headers := None |},
     mkWorld (s3 w) (console w ++ error_lines "Only GET method is supported" (LogEvent event))
       (s3_calls w) (perf w)).
Proof.
  intros (hs & secret & Hhs & Hsecret & Hne & Hkey) Hget.
  unfold EngineV2.handler, EngineV2.secret_header. rewrite Hhs, Hget.
  unfold mbind, M_bind, bind, mret, M_ret, ret. cbn [fst snd].
  unfold EngineV2.SECRET_KEY. rewrite Hsecret, Hkey.
  rewrite (bool_decide_eq_true_2 (Some secret = Some secret)) by done.
  destruct secret; [done|]. simpl. rewrite v2_sendError_run. done.
Qed.

(** X10.  In the second handler the status tells the two kinds of response
    apart: a returned response either has status 200, is base64-encoded and
    carries the two headers, or has status 400, 403 or 500 and carries a
    plain message without headers. *)
Theorem v2_status_matches_content (event : Event) (w w' : World S) (r : Response) :
  EngineV2.handler env event w = (Normal r, w') →
  (statusCode r = JNum 200 ∧ isBase64Encoded r = Some true ∧ is_Some (response_headers r))
  ∨ (status_of r ∈ [Some 400%Z; Some 403%Z; Some 500%Z]
     ∧ isBase64Encoded r = None ∧ response_headers r = None).
Proof.
  open_v2. intros Hrun.
  repeat (case_match; run; simplify_eq;
          try (left; by eauto); try (right; split; [set_solver|done])).
Qed.

(** X11.  The second handler fails at the download for every request that
    passes its two guards, whatever the store holds: [getObject] is called
    once, the call of [.promise()] on its result throws a [TypeError]
    inside the first [try], and the handler answers status 500
    ['error downloading original image'] after logging that error.  The
    store is unchanged. *)
Theorem v2_fetch_failure_is_500 (event : Event) (path : string) (w : World S) :
  authorized env event → EngineV2.is_GET event = true → path_of event = Some path →
  ∃ w', EngineV2.handler env event w =
          (Normal {| statusCode := JNum 500; body := "error downloading original image";
                     isBase64Encoded := None; response_headers := None |}, w')
    ∧ s3 w' = s3 w
    ∧ s3_calls w' = (s3_calls w ++ [CallGet (source_request env path)])%list
    ∧ console w' = (console w
                    ++ error_lines "error downloading original image"
                         (LogErr promise_missing))%list.
Proof.
  intros Hauth Hget Hpath.
  rewrite (v2_download_throws env event path w Hauth Hget Hpath). by eexists.
Qed.

(** X12.  When encoding fails (an exception inside the second [try]
    block) the first handler answers with the message
    ['error transforming image'], without headers, and skips the cache
    write: the store is left as it was and [getObject] stays the only call. *)
Theorem v1_transform_failure_skips_cache (event : Event) (path prefix : string)
    (original : GetObjectOutput) (md : Metadata) (e : JsError) (w : World S) :
  path_of event = Some path → operationsPrefix_of path = Some prefix →
  getObject (s3 w) (source_request env path) = inr original →
  sharp_metadata (Sharp (Body original) "none" true) = inr md →
  sharp_toBuffer (pipeline_for (EngineV1.resolve_settings (operationsJSON_of prefix)) original)
    = inl e →
  ∃ r w', EngineV1.handler env event w = (Normal r, w')
    ∧ body r = "error transforming image"
    ∧ isBase64Encoded r = None ∧ response_headers r = None
    ∧ s3 w' = s3 w
    ∧ s3_calls w' = (s3_calls w ++ [CallGet (source_request env path)])%list
    ∧ console w' = (console w ++ error_lines "error transforming image" (LogErr e))%list.
Proof.
  intros (rc & h & Hrc & Hh & Hp)%path_of_Some Hlast Hget Hmd Hbuf.
  unfold source_request, pipeline_for in *.
  open_v1. open_path. rewrite Hrc, Hh, Hp, Hlast, Hget, Hmd. simpl.
  destruct (contentType_of_format _) as [ct lossy]. simpl.
  rewrite Hbuf. run. eexists _, _. rewrite <- app_assoc. done.
Qed.

(** X14.  [metadata()] is awaited outside both [try] blocks: when it
    rejects, the first handler returns no response at all.  The exception
    leaves the handler, after the download and before any console output
    or cache write. *)
Theorem v1_metadata_failure_is_uncaught (event : Event) (path : string)
    (original : GetObjectOutput) (e : JsError) (w : World S) :
  path_of event = Some path →
  getObject (s3 w) (source_request env path) = inr original →
  sharp_metadata (Sharp (Body original) "none" true) = inl e →
  ∃ w', EngineV1.handler env event w = (Throw e, w')
    ∧ s3 w' = s3 w ∧ console w' = console w
    ∧ s3_calls w' = (s3_calls w ++ [CallGet (source_request env path)])%list.
Proof.
  intros (rc & h & Hrc & Hh & Hp)%path_of_Some Hget Hmd.
  destruct (split_last "/" path) as [prefix Hlast].
  unfold source_request in *.
  open_v1. open_path. rewrite Hrc, Hh, Hp, Hlast, Hget, Hmd. by eexists.
Qed.

(** X15.  The first handler performs no check of its own on the caller: it
    reads nothing of the event but the path, so two events with the same
    path (whatever their headers and method) are served identically. *)
Theorem v1_reads_only_the_path (event event' : Event) (path : string) (w : World S) :
  path_of event = Some path → path_of event' = Some path →
  EngineV1.handler env event w = EngineV1.handler env event' w.
Proof.
  intros (rc & h & Hrc & Hh & Hp)%path_of_Some (rc' & h' & Hrc' & Hh' & Hp')%path_of_Some.
  unfold EngineV1.handler, EngineV1.event_path.
  by rewrite Hrc, Hh, Hp, Hrc', Hh', Hp'.
Qed.

(** X16.  An event without [requestContext.http.path] makes the first
    handler throw a [TypeError] before it touches the store, the console or
    the clock. *)
Theorem v1_missing_path_throws (event : Event) (w : World S) :
  path_of event = None →
  ∃ msg, EngineV1.handler env event w = (Throw (TypeError msg), w).
Proof.
  unfold path_of, EngineV1.handler, EngineV1.event_path.
  destruct (requestContext event) as [rc|]; simpl; [|by eexists].
  destruct (http rc) as [h|]; simpl; [|by eexists].
  intros ->. by eexists.
Qed.

(** X17.  Store discipline of the first handler: a run issues no call, or
    one [getObject] on the configured source bucket, or that [getObject]
    followed by one [putObject] on the configured, non-empty
    transformed-image bucket with the configured cache-control value.  The
    store changes only through that [putObject]. *)
Theorem v1_store_discipline (event : Event) (w : World S) :
  let w' := snd (EngineV1.handler env event w) in
  (s3_calls w' = s3_calls w ∧ s3 w' = s3 w)
  ∨ (∃ key, s3_calls w' = (s3_calls w ++ [CallGet {| get_Bucket := originalImageBucketName env;
                                                     get_Key := key |}])%list
            ∧ s3 w' = s3 w)
  ∨ (∃ key p, s3_calls w' = ((s3_calls w ++ [CallGet {| get_Bucket := originalImageBucketName env;
                                                        get_Key := key |}])
                             ++ [CallPut p])%list
              ∧ s3 w' = snd (putObject (s3 w) p)
              ∧ transformedImageBucketName env = Some (put_Bucket p)
              ∧ put_Bucket p ≠ ""
              ∧ put_cache_control p = transformedImageCacheTTL env).
Proof.
  open_v1.
  repeat (case_match; run; simplify_eq).
  all: cbn [snd s3 s3_calls].
  all: try (left; done).
  all: try (right; left; eexists; done).
  all: right; right; eexists _, _; split; [done|].
  all: match goal with
       | Hput : putObject _ _ = _, Ht : Js.truthy _ = true |- _ =>
           rewrite Hput; cbn [snd put_Bucket put_cache_control];
           split; [done|]; split; [done|]; split; [|done];
           intros Hb; rewrite Hb in Ht; discriminate
       end.
Qed.

(** X18.  A successful cache write stores exactly what is returned: the
    object put into the transformed-image bucket has the encoded bytes as
    body, the request path without its leading slash
    ([originalImagePath + '/' + operationsPrefix]) as key, and the content
    type and cache-control value of the response. *)
Theorem v1_cache_write_matches_response (event : Event) (path prefix bucket : string)
    (original : GetObjectOutput) (md : Metadata) (bytes : Buffer) (s' : S) (w : World S) :
  path_of event = Some path → operationsPrefix_of path = Some prefix →
  getObject (s3 w) (source_request env path) = inr original →
  sharp_metadata (Sharp (Body original) "none" true) = inr md →
  let st := EngineV1.resolve_settings (operationsJSON_of prefix) in
  sharp_toBuffer (pipeline_for st original) = inr bytes →
  transformedImageBucketName env = Some bucket → bucket ≠ "" →
  putObject (s3 w) (cache_request env bucket path prefix st bytes) = (inr tt, s') →
  ∃ r hd w', EngineV1.handler env event w = (Normal r, w')
    ∧ response_headers r = Some hd
    ∧ body r = toString_base64 (put_Body (cache_request env bucket path prefix st bytes))
    ∧ Content_Type hd = put_ContentType (cache_request env bucket path prefix st bytes)
    ∧ Cache_Control hd = put_cache_control (cache_request env bucket path prefix st bytes)
    ∧ put_Key (cache_request env bucket path prefix st bytes)
        = originalImagePath_of path ++ "/" ++ prefix
    ∧ s3 w' = s'
    ∧ s3_calls w' = (s3_calls w ++ [CallGet (source_request env path);
                       CallPut (cache_request env bucket path prefix st bytes)])%list.
Proof.
  intros Hpath Hlast Hget Hmd st Hbuf Hbucket Hne Hput.
  destruct (v1_success env event path prefix original md bytes w Hpath Hlast Hget Hmd Hbuf)
    as (w2 & w' & Hup & Hrun & Hs3 & Hcalls & _).
  rewrite (v1_upload_configured env _ _ _ _ bucket) in Hup by done.
  cbn [s3 console s3_calls perf] in Hup. fold st in Hup.
  unfold cache_request in Hput. rewrite Hput in Hup.
  injection Hup as <-. cbn [s3 s3_calls] in *.
  eexists _, _, w'. split; [exact Hrun|]. simpl.
  repeat split; try done. rewrite Hcalls. by rewrite <- app_assoc.
Qed.

Lemma string_app_assoc (a b c : string) : (a ++ b) ++ c = a ++ b ++ c.
Proof.
  induction a as [|x a IH]; [done|].
  change ((String x a ++ b) ++ c) with (String x ((a ++ b) ++ c)).
  change (String x a ++ b ++ c) with (String x (a ++ b ++ c)).
  by rewrite IH.
Qed.

(** X19.  With [logTiming] set to ['true'], a run that returns the image
    takes six clock readings and ends with one console line
    ["perf a b c "], where [a], [b] and [c] are what the runtime's
    [parseInt] makes of the differences second minus first, fourth minus
    third and sixth minus fifth reading (around the download, the
    transformation and the upload). *)
Theorem v1_timing_line (event : Event) (path prefix : string)
    (original : GetObjectOutput) (md : Metadata) (bytes : Buffer)
    (t0 t1 t2 t3 t4 t5 : Number) (rest : list Number) (w : World S) :
  path_of event = Some path → operationsPrefix_of path = Some prefix →
  getObject (s3 w) (source_request env path) = inr original →
  sharp_metadata (Sharp (Body original) "none" true) = inr md →
  sharp_toBuffer (pipeline_for (EngineV1.resolve_settings (operationsJSON_of prefix)) original)
    = inr bytes →
  logTiming env = Some "true" →
  perf w = t0 :: t1 :: t2 :: t3 :: t4 :: t5 :: rest →
  ∃ r w', EngineV1.handler env event w = (Normal r, w')
    ∧ last (console w') = Some [LogStr (timing_line t0 t1 t2 t3 t4 t5)]
    ∧ perf w' = rest.
Proof.
  intros (rc & h & Hrc & Hh & Hp)%path_of_Some Hlast Hget Hmd Hbuf Hlog Hperf.
  unfold EngineV1.handler, EngineV1.event_path, EngineV1.transform,
    EngineV1.S3_ORIGINAL_IMAGE_BUCKET, EngineV1.TRANSFORMED_IMAGE_CACHE_TTL,
    EngineV1.LOG_TIMING.
  unfold source_request, pipeline_for in *.
  run. open_path. rewrite Hrc, Hh, Hp, Hlast, Hget, Hmd, Hperf, Hlog. simpl.
  destruct (contentType_of_format _) as [ct lossy]. simpl in *.
  rewrite Hbuf. run.
  match goal with
  | |- context [EngineV1.upload ?e ?b ?k ?p ?c ?w0] =>
      destruct (v1_upload_total e b k p c w0) as (w2 & Hup & Hperf2); rewrite Hup
  end.
  cbn [perf] in Hperf2. rewrite Hperf2.
  eexists _, _. split; [done|]. cbn [console perf]. split; [|done].
  rewrite last_snoc. unfold timing_line. do 3 f_equal.
  by rewrite !string_app_assoc.
Qed.

Lemma switch_In (clauses : list Clause) (v : string) (c : Clause) :
  switch clauses v = Some c → In c clauses.
Proof.
  unfold switch. destruct (find _ clauses) as [c'|] eqn:Hfind.
  - intros [= <-]. by apply find_some in Hfind as [? _].
  - intros Hdef. by apply find_some in Hdef as [? _].
Qed.

Lemma initial_settings_within_bounds : settings_within_bounds initial_settings.
Proof.
  split; [done|]. split; [exists 80%Z; split; [done|lia]|by left].
Qed.

Lemma preset_within_bounds (w h q : Z) (qs : string) :
  parseInt qs = Some q → (10 <= q <= 90)%Z → (0 < h <= w)%Z → (w <= 2048)%Z →
  settings_within_bounds (apply_entry (EngineV1.preset w h "jpeg" qs)).
Proof.
  intros Hq Hqb Hh Hw. split; [done|]. split; [by exists q|].
  right. by exists w, h.
Qed.

Lemma v1_clauses_within_bounds :
  Forall (λ c, settings_within_bounds (apply_entry (entry c))) EngineV1.preset_clauses.
Proof.
  unfold EngineV1.preset_clauses.
  repeat (constructor; [eapply preset_within_bounds; [vm_compute; reflexivity|lia..]|]).
  constructor.
Qed.

Lemma v2_clauses_within_bounds :
  Forall (λ c, settings_within_bounds (apply_entry (entry c))) EngineV2.preset_clauses.
Proof.
  unfold EngineV2.preset_clauses.
  repeat (constructor; [eapply preset_within_bounds; [vm_compute; reflexivity|lia..]|]).
  constructor.
Qed.

Lemma v1_settings_bounds (operationsJSON : gmap string (option string)) :
  settings_within_bounds (EngineV1.resolve_settings operationsJSON).
Proof.
  unfold EngineV1.resolve_settings.
  destruct (prop operationsJSON "preset") as [v|];
    [|apply initial_settings_within_bounds].
  destruct (Js.truthy v); [|apply initial_settings_within_bounds].
  destruct (switch EngineV1.preset_clauses v) as [c|] eqn:Hs;
    [|apply initial_settings_within_bounds].
  apply switch_In in Hs. pose proof v1_clauses_within_bounds as Hall.
  rewrite Forall_forall in Hall. apply Hall. by apply list_elem_of_In.
Qed.

Lemma v2_settings_bounds (operationsJSON : gmap string (option string)) :
  settings_within_bounds (EngineV2.resolve_settings operationsJSON).
Proof.
  unfold EngineV2.resolve_settings.
  destruct (prop operationsJSON "preset") as [v|];
    [|apply initial_settings_within_bounds].
  destruct (Js.truthy v); [|apply initial_settings_within_bounds].
  destruct (switch EngineV2.preset_clauses v) as [c|] eqn:Hs;
    [|apply initial_settings_within_bounds].
  apply switch_In in Hs. pose proof v2_clauses_within_bounds as Hall.
  rewrite Forall_forall in Hall. apply Hall. by apply list_elem_of_In.
Qed.

(** X20.  Whatever the last path segment is, the settings resolved by
    either handler stay within fixed bounds: the format is jpeg, the
    quality parses to an integer between 10 and 90, and the resize options
    are either empty or a width of at most 2048 with a positive height not
    above the width. *)
Theorem settings_always_within_bounds (operationsPrefix : string) :
  settings_within_bounds (EngineV1.resolve_settings (operationsJSON_of operationsPrefix))
  ∧ settings_within_bounds (EngineV2.resolve_settings (operationsJSON_of operationsPrefix)).
Proof. split; [apply v1_settings_bounds | apply v2_settings_bounds]. Qed.

(** X21.  Every image response of the first handler is labelled
    [image/jpeg] and carries the configured cache lifetime: the content
    type of the original object is read but never forwarded. *)
Theorem v1_image_response_headers (event : Event) (w w' : World S) (r : Response)
    (hd : Headers) :
  EngineV1.handler env event w = (Normal r, w') → response_headers r = Some hd →
  Content_Type hd = "image/jpeg"
  ∧ Cache_Control hd = transformedImageCacheTTL env
  ∧ statusCode r = JNum 200 ∧ isBase64Encoded r = Some true.
Proof.
  unfold EngineV1.handler, EngineV1.event_path, EngineV1.transform, EngineV1.sendError,
    EngineV1.TRANSFORMED_IMAGE_CACHE_TTL.
  run. intros Hrun Hhd.
  repeat (case_match; run; simplify_eq; try done).
  all: match goal with
       | Hct : contentType_of_format _ = _, Hup : EngineV1.upload _ _ _ _ _ _ = _ |- _ =>
           rewrite (proj1 (v1_settings_bounds _)) in Hct; injection Hct as <- <-;
           clear Hup
       end.
  all: simpl in Hhd; by simplify_eq.
Qed.
End EngineCoverage.

(** ** Further properties: the preset switch *)

Section PresetCoverage.
Import Engine Props Coverage.

Lemma v1_clauses_labels :
  map labels EngineV1.preset_clauses =
    [[Case (Some "icon")]; [Case (Some "thumb")]; [Case (Some "large")];
     [Case (Some "medium")]; [Case (Some "small")]; [Case (Some "xlarge")];
     [Case (Some "icon_wide")]; [Case (Some "thumb_wide")]; [Case (Some "large_wide")];
     [Case (Some "medium_wide")]; [Case (Some "small_wide")]; [Case (Some "doordash")];
     [Case (Some "xlarge_wide"); Default]].
Proof. by vm_compute. Qed.


(** No label of a clause list matches [v]. *)
Lemma find_no_match (clauses : list Clause) (v : string) :
  Forall (Forall (λ l, label_matches v l = false)) (map labels clauses) →
  find (λ c, existsb (label_matches v) (labels c)) clauses = None.
Proof.
  induction clauses as [|c clauses IH]; simpl; [done|].
  intros [Hc Hrest]%Forall_cons.
  assert (existsb (label_matches v) (labels c) = false) as ->.
  { induction Hc as [|l ls Hl _ IHl]; simpl; [done|]. by rewrite Hl, IHl. }
  by apply IH.
Qed.

Lemma label_mismatch (v name : string) :
  v ≠ name → label_matches v (Case (Some name)) = false.
Proof. intros Hne. simpl. apply String.eqb_neq. congruence. Qed.

(** X22.  In the first handler a non-empty preset value that labels no
    clause is not rejected: it takes the [default] branch and is resized to
    2048x1152, jpeg, quality 80, like [xlarge_wide]. *)
Theorem v1_unknown_preset_falls_back (operationsJSON : gmap string (option string))
    (v : string) :
  prop operationsJSON "preset" = Some v → v ≠ "" → v ∉ v1_labelled →
  EngineV1.resolve_settings operationsJSON = fallback_settings.
Proof.
  intros Hprop Hne Hnot. unfold EngineV1.resolve_settings. rewrite Hprop.
  destruct v as [|a v']; [done|]. cbn [Js.truthy]. set (v := String a v') in *.
  unfold switch. rewrite find_no_match.
  - unfold EngineV1.preset_clauses. simpl. done.
  - rewrite v1_clauses_labels. unfold v1_labelled in Hnot.
    repeat (constructor;
            [repeat (constructor; [first [apply label_mismatch; set_solver | done]|]);
             constructor|]).
    constructor.
Qed.

Lemma v1_unknown_preset_falls_back_witness :
  EngineV1.resolve_settings (operationsJSON_of "preset=huge") = fallback_settings.
Proof.
  apply (v1_unknown_preset_falls_back (operationsJSON_of "preset=huge") "huge").
  - by vm_compute.
  - discriminate.
  - unfold v1_labelled. intros Hin.
    repeat (apply elem_of_cons in Hin as [Hin|Hin]; [discriminate|]).
    by apply elem_of_nil in Hin.
Defined.



(** A [preset] member that is present but empty or undefined counts as no
    preset in both handlers. *)
Lemma empty_preset_is_no_preset (operationsJSON : gmap string (option string)) :
  truthy (prop operationsJSON "preset") = false →
  EngineV1.resolve_settings operationsJSON = initial_settings
  ∧ EngineV2.resolve_settings operationsJSON = initial_settings.
Proof.
  unfold EngineV1.resolve_settings, EngineV2.resolve_settings, truthy.
  destruct (prop operationsJSON "preset") as [v|]; [|done].
  by intros ->.
Qed.

Lemma operationsJSON_snoc (d e : string) :
  no_char "," e = true →
  operationsJSON_of (d ++ "," ++ e) =
    <[entry_key (Js.split "=" e) := Js.split "=" e !! 1%nat]> (operationsJSON_of d).
Proof.
  intros He. unfold operationsJSON_of, fromEntries.
  change (d ++ "," ++ e) with (d ++ String "," e).
  rewrite (split_snoc "," d e He), map_app, fold_left_app. done.
Qed.

(** X24.  When a descriptor lists several operations, the last [preset]
    entry decides: for a value [p] without comma or equals sign, the
    descriptor [d ++ ",preset=" ++ p] is read as preset [p] whatever [d]
    holds; and when that last value is empty, both handlers fall back to
    the initial settings (no resize, jpeg, quality 80) instead of the
    [default] branch. *)
Theorem last_preset_entry_decides (d p : string) :
  no_char "," p = true → no_char "=" p = true →
  prop (operationsJSON_of (d ++ ",preset=" ++ p)) "preset" = Some p
  ∧ (p = "" →
     EngineV1.resolve_settings (operationsJSON_of (d ++ ",preset=" ++ p)) = initial_settings
     ∧ EngineV2.resolve_settings (operationsJSON_of (d ++ ",preset=" ++ p))
         = initial_settings).
Proof.
  intros Hcomma Heq.
  assert (prop (operationsJSON_of (d ++ ",preset=" ++ p)) "preset" = Some p) as Hprop.
  { change (d ++ ",preset=" ++ p) with (d ++ "," ++ ("preset=" ++ p)).
    rewrite operationsJSON_snoc by (simpl; exact Hcomma).
    replace (Js.split "=" ("preset=" ++ p)) with ["preset"; p]
      by (symmetry; apply (split_snoc "=" "preset" p Heq)).
    unfold prop, entry_key. cbn [lookup list_lookup default]. unfold id.
    by rewrite lookup_insert_eq. }
  split; [done|]. intros ->.
  apply empty_preset_is_no_preset. by rewrite Hprop.
Qed.

Lemma last_preset_entry_decides_witness :
  prop (operationsJSON_of "preset=small,width=10,preset=large") "preset" = Some "large"
  ∧ EngineV1.resolve_settings (operationsJSON_of "preset=small,preset=") = initial_settings.
Proof.
  split.
  - exact (proj1 (last_preset_entry_decides "preset=small,width=10" "large"
                    eq_refl eq_refl)).
  - exact (proj1 (proj2 (last_preset_entry_decides "preset=small" "" eq_refl eq_refl)
                    eq_refl)).
Defined.
End PresetCoverage.

(** ** Further properties on the sample store *)

Section CoverageRuns.
Import Engine Props Coverage.

Lemma sample_authorized (path : string) :
  authorized Samples.env (Samples.get_event path).
Proof.
  exists {[ "x-origin-secret-header" := "0123456789abcdef" ]}, "0123456789abcdef".
  repeat split; try reflexivity. discriminate.
Qed.

Lemma v2_rejects_unauthorized_witness :
  fst (Samples.run_v2 (wrong_secret_event "/images/rio/1.jpeg/preset=medium") true)
    = Normal (Samples.error_response 403 "Request unauthorized")
  ∧ s3_calls (snd (Samples.run_v2 (wrong_secret_event "/images/rio/1.jpeg/preset=medium") true))
    = [].
Proof.
  unfold Samples.run_v2.
  rewrite (@v2_rejects_unauthorized _ Samples.mem_s3 Samples.demo_sharp
              Samples.demo_runtime Samples.env
             (wrong_secret_event "/images/rio/1.jpeg/preset=medium")
             {[ "x-origin-secret-header" := "guess" ]} (Samples.world true) eq_refl).
  - split; reflexivity.
  - intros (hs & secret & Hhs & Hsecret & _ & Hkey).
    injection Hhs as <-. vm_compute in Hsecret. vm_compute in Hkey. congruence.
Defined.

Lemma v2_rejects_other_methods_witness :
  fst (Samples.run_v2 (post_event "/images/rio/1.jpeg/preset=medium") true)
    = Normal (Samples.error_response 400 "Only GET method is supported").
Proof.
  unfold Samples.run_v2.
  rewrite (@v2_rejects_other_methods _ Samples.mem_s3 Samples.demo_sharp
              Samples.demo_runtime Samples.env
             (post_event "/images/rio/1.jpeg/preset=medium") (Samples.world true)).
  - reflexivity.
  - exists {[ "x-origin-secret-header" := "0123456789abcdef" ]}, "0123456789abcdef".
    repeat split; try reflexivity. discriminate.
  - reflexivity.
Defined.

Lemma v2_status_matches_content_witness :
  match fst (Samples.run_v2 Samples.medium_event true) with
  | Normal r => status_of r ∈ [Some 400%Z; Some 403%Z; Some 500%Z]
                ∧ response_headers r = None
  | Throw _ => False
  end.
Proof.
  destruct (Samples.run_v2 Samples.medium_event true) as [[r|e] w'] eqn:Hrun;
    [|vm_compute in Hrun; discriminate].
  destruct (@v2_status_matches_content _ Samples.mem_s3 Samples.demo_sharp
              Samples.demo_runtime Samples.env
              Samples.medium_event (Samples.world true) w' r Hrun)
    as [(H1 & _ & _)|(Hstatus & _ & Hnone)]; [|by split].
  vm_compute in Hrun. injection Hrun as <- _. discriminate.
Defined.

Lemma v2_fetch_failure_is_500_witness :
  ∃ w', Samples.run_v2 Samples.medium_event true
          = (Normal (Samples.error_response 500 "error downloading original image"), w')
    ∧ s3 w' = Samples.store true
    ∧ s3_calls w' = [CallGet {| get_Bucket := Some "originals";
                                get_Key := "images/rio/1.jpeg" |}].
Proof.
  destruct (@v2_fetch_failure_is_500 _ Samples.mem_s3 Samples.demo_sharp
              Samples.demo_runtime Samples.env
              Samples.medium_event "/images/rio/1.jpeg/preset=medium" (Samples.world true))
    as (w' & Hrun & Hs3 & Hcalls & _);
    [apply sample_authorized | reflexivity | reflexivity |].
  exists w'. split; [exact Hrun|]. split; [exact Hs3 | exact Hcalls].
Defined.

Lemma v1_transform_failure_skips_cache_witness :
  ∃ r w', @EngineV1.handler _ Samples.mem_s3 failing_toBuffer Samples.demo_runtime Samples.env
            Samples.medium_event (Samples.world true) = (Normal r, w')
    ∧ body r = "error transforming image"
    ∧ s3 w' = Samples.store true.
Proof.
  destruct (@v1_transform_failure_skips_cache _ Samples.mem_s3 failing_toBuffer
              Samples.demo_runtime Samples.env
              Samples.medium_event "/images/rio/1.jpeg/preset=medium" "preset=medium"
              Samples.rio {| md_format := "jpeg"; md_width := 1; md_height := 1 |}
              (SharpError "VipsJpeg: premature end of JPEG image") (Samples.world true))
    as (r & w' & Hrun & Hbody & _ & _ & Hs3 & _);
    [reflexivity | by vm_compute | by vm_compute | reflexivity | reflexivity |].
  exists r, w'. split; [exact Hrun|]. split; [exact Hbody | exact Hs3].
Defined.

Lemma v1_metadata_failure_is_uncaught_witness :
  ∃ w', @EngineV1.handler _ Samples.mem_s3 Samples.demo_sharp Samples.demo_runtime
          Samples.env (Samples.get_event "/images/empty.png/original") world_with_empty
          = (Throw (SharpError "Input Buffer is empty"), w')
    ∧ console w' = [].
Proof.
  destruct (@v1_metadata_failure_is_uncaught _ Samples.mem_s3 Samples.demo_sharp
              Samples.demo_runtime Samples.env
              (Samples.get_event "/images/empty.png/original") "/images/empty.png/original"
              empty_object (SharpError "Input Buffer is empty") world_with_empty)
    as (w' & Hrun & _ & Hconsole & _);
    [reflexivity | by vm_compute | reflexivity |].
  exists w'. split; [exact Hrun | exact Hconsole].
Defined.

Lemma v1_reads_only_the_path_witness :
  Samples.run_v1 (wrong_secret_event "/images/rio/1.jpeg/preset=medium") true
    = Samples.run_v1 Samples.medium_event true
  ∧ Samples.run_v1 (post_event "/images/rio/1.jpeg/preset=medium") true
    = Samples.run_v1 Samples.medium_event true.
Proof.
  split.
  - exact (@v1_reads_only_the_path _ Samples.mem_s3 Samples.demo_sharp
              Samples.demo_runtime Samples.env
             (wrong_secret_event "/images/rio/1.jpeg/preset=medium") Samples.medium_event
             "/images/rio/1.jpeg/preset=medium" (Samples.world true) eq_refl eq_refl).
  - exact (@v1_reads_only_the_path _ Samples.mem_s3 Samples.demo_sharp
              Samples.demo_runtime Samples.env
             (post_event "/images/rio/1.jpeg/preset=medium") Samples.medium_event
             "/images/rio/1.jpeg/preset=medium" (Samples.world true) eq_refl eq_refl).
Defined.

Lemma v1_missing_path_throws_witness :
  ∃ msg, Samples.run_v1 bare_event true = (Throw (TypeError msg), Samples.world true).
Proof.
  exact (@v1_missing_path_throws _ Samples.mem_s3 Samples.demo_sharp
              Samples.demo_runtime Samples.env
           bare_event (Samples.world true) eq_refl).
Defined.

Lemma v1_cache_write_matches_response_witness :
  ∃ r w', Samples.run_v1 Samples.medium_event true = (Normal r, w')
    ∧ body r = "UklPeHg="
    ∧ Samples.objects (s3 w') !! ("transformed", "images/rio/1.jpeg/preset=medium")
        = Some {| Body := ["R"; "I"; "O"; "x"; "x"]%byte;
                  ContentType := Some "image/jpeg" |}.
Proof.
  destruct (@v1_cache_write_matches_response _ Samples.mem_s3 Samples.demo_sharp Samples.demo_runtime
              Samples.env Samples.medium_event "/images/rio/1.jpeg/preset=medium"
              "preset=medium" "transformed" Samples.rio
              {| md_format := "jpeg"; md_width := 3000; md_height := 2000 |}
              ["R"; "I"; "O"; "x"; "x"]%byte
              (snd (Samples.mem_putObject (Samples.store true)
                      (cache_request Samples.env "transformed"
                         "/images/rio/1.jpeg/preset=medium" "preset=medium"
                         (EngineV1.resolve_settings (operationsJSON_of "preset=medium"))
                         ["R"; "I"; "O"; "x"; "x"]%byte)))
              (Samples.world true))
    as (r & hd & w' & Hrun & _ & Hbody & _ & _ & _ & Hs3 & _);
    try (by vm_compute); try discriminate.
  exists r, w'. split; [exact Hrun|]. split; [exact Hbody|].
  rewrite Hs3. by vm_compute.
Defined.

Lemma v1_timing_line_witness :
  ∃ r w', @EngineV1.handler _ Samples.mem_s3 Samples.demo_sharp Samples.demo_runtime
            env_without_cache Samples.medium_event world_with_clock
          = (Normal r, w')
    ∧ last (console w') = Some [LogStr "perf 30 50 8 "]
    ∧ perf w' = [999%Z].
Proof.
  exact (@v1_timing_line _ Samples.mem_s3 Samples.demo_sharp Samples.demo_runtime
           env_without_cache
           Samples.medium_event "/images/rio/1.jpeg/preset=medium" "preset=medium"
           Samples.rio {| md_format := "jpeg"; md_width := 3000; md_height := 2000 |}
           ["R"; "I"; "O"; "x"; "x"]%byte 100%Z 130%Z 131%Z 181%Z 182%Z 190%Z [999%Z]
           world_with_clock
           eq_refl eq_refl eq_refl eq_refl eq_refl eq_refl eq_refl).
Defined.

Lemma v1_image_response_headers_witness :
  match fst (Samples.run_v1 Samples.medium_event true) with
  | Normal r =>
      ∃ hd, response_headers r = Some hd ∧ Content_Type hd = "image/jpeg"
            ∧ Cache_Control hd = Some "max-age=31622400"
  | Throw _ => False
  end.
Proof.
  destruct (Samples.run_v1 Samples.medium_event true) as [[r|e] w'] eqn:Hrun;
    [|vm_compute in Hrun; discriminate].
  destruct (response_headers r) as [hd|] eqn:Hhd;
    [|vm_compute in Hrun; injection Hrun as <- _; discriminate].
  destruct (@v1_image_response_headers _ Samples.mem_s3 Samples.demo_sharp
              Samples.demo_runtime Samples.env
              Samples.medium_event (Samples.world true) w' r hd Hrun Hhd)
    as (H1 & H2 & _).
  exists hd. split; [exact Hhd|]. split; [exact H1 | exact H2].
Defined.
End CoverageRuns.

(** ** The preset switch on the Normalizer's allow-list *)

Section AllowListDispatch.
Import Engine Props Coverage.

(** The clause of the [default] label, which [xlarge_wide] labels too, is
    the one every value without a label of its own ends in. *)
Lemma v1_switch_unlabelled (v : string) :
  v ∉ v1_labelled →
  switch EngineV1.preset_clauses v =
    Some {| labels := [Case (Some "xlarge_wide"); Default];
            entry := EngineV1.preset 2048 1152 "jpeg" "80" |}.
Proof.
  intros Hnot. unfold switch. rewrite find_no_match.
  - by vm_compute.
  - rewrite v1_clauses_labels. unfold v1_labelled in Hnot.
    repeat (constructor;
            [repeat (constructor; [first [apply label_mismatch; set_solver | done]|]);
             constructor|]).
    constructor.
Qed.

(** C8, as the code has it.  Every name of the Normalizer's allow-list is
    matched by a [case] label of the preset switch and receives concrete
    width, height, format and quality.  Nine names own their clause;
    [xlarge_wide] shares its clause with the [default] label: the body is
    2048x1152, jpeg, quality 80, and it is the body every value without a
    label of its own receives as well. *)
Theorem allow_list_dispatch (name : string) :
  name ∈ Normalizer.ALLOWED_PRESETS →
  ∃ c, switch EngineV1.preset_clauses name = Some c
    ∧ Case (Some name) ∈ labels c
    ∧ concrete (entry c)
    ∧ EngineV1.resolve_settings (operationsJSON_of ("preset=" ++ name))
        = apply_entry (entry c)
    ∧ (name ≠ "xlarge_wide" → dedicated c name)
    ∧ (name = "xlarge_wide" →
       labels c = [Case (Some name); Default]
       ∧ entry c = EngineV1.preset 2048 1152 "jpeg" "80"
       ∧ ∀ v, v ∉ v1_labelled → switch EngineV1.preset_clauses v = Some c).
Proof.
  unfold Normalizer.ALLOWED_PRESETS. intros Hin.
  repeat (apply elem_of_cons in Hin as [->|Hin];
    [eexists; split; [by vm_compute|];
     split; [by left|];
     split; [unfold concrete; simpl; repeat split; try lia;
             [set_solver | eexists; split; [reflexivity|lia]]|];
     split; [by vm_compute|];
     split; [intros ?; by try reflexivity|];
     intros Hname; first [discriminate Hname
                         | split; [reflexivity|]; split; [reflexivity|];
                           intros v Hv; by rewrite v1_switch_unlabelled] |]).
  by apply elem_of_nil in Hin.
Qed.

Lemma allow_list_dispatch_counterexample :
  "xlarge_wide" ∈ Normalizer.ALLOWED_PRESETS
  ∧ ¬ resolves_to_dedicated EngineV1.preset_clauses "xlarge_wide".
Proof.
  split; [unfold Normalizer.ALLOWED_PRESETS; set_solver|].
  intros (c & Hswitch & Hded). vm_compute in Hswitch.
  injection Hswitch as <-. unfold dedicated in Hded. simpl in Hded. discriminate.
Qed.

Lemma allow_list_dispatch_witness :
  (∃ c, switch EngineV1.preset_clauses "medium" = Some c
     ∧ entry c = EngineV1.preset 512 512 "jpeg" "70"
     ∧ dedicated c "medium")
  ∧ (∃ c, switch EngineV1.preset_clauses "xlarge_wide" = Some c
       ∧ labels c = [Case (Some "xlarge_wide"); Default]
       ∧ entry c = EngineV1.preset 2048 1152 "jpeg" "80"
       ∧ switch EngineV1.preset_clauses "poster" = Some c).
Proof.
  split.
  - assert ("medium" ∈ Normalizer.ALLOWED_PRESETS) as Hin
      by (unfold Normalizer.ALLOWED_PRESETS; do 2 right; left).
    destruct (allow_list_dispatch "medium" Hin) as (c & Hs & _ & _ & _ & Hded & _).
    exists c. split; [exact Hs|]. split; [|apply Hded; discriminate].
    vm_compute in Hs. injection Hs as <-. reflexivity.
  - assert ("xlarge_wide" ∈ Normalizer.ALLOWED_PRESETS) as Hin
      by (unfold Normalizer.ALLOWED_PRESETS; do 8 right; left).
    destruct (allow_list_dispatch "xlarge_wide" Hin) as (c & Hs & _ & _ & _ & _ & Hshared).
    destruct (Hshared eq_refl) as (Hlabels & Hentry & Hdefault).
    exists c. split; [exact Hs|]. split; [exact Hlabels|]. split; [exact Hentry|].
    apply Hdefault. unfold v1_labelled. intros Hv.
    repeat (apply elem_of_cons in Hv as [Hv|Hv]; [discriminate|]).
    by apply elem_of_nil in Hv.
Defined.
End AllowListDispatch.
